(** * Traffic statistics kernel of the ESP32 NAT router display

    A shallow embedding of [components/tft_display/traffic_stats.c]
    (with the types of [traffic_stats.h]) and the properties of its
    sampling tick, its client table and its snapshot functions, followed by
    the parts of [ui_screens.c] and [tft_display.c] that use them: screen
    navigation and UI lifecycle, the speed gauge, the uptime text, and the
    rectangle and circle primitives.

    Conventions.
    - [uint32_t] and [uint64_t] values are integers of [Z]; every
      operation that can wrap in C carries its [mod 2^32] or [mod 2^64].
    - The file-scope statics of the C file are the fields of [state].
    - What the C code reads from its environment (the outcome of
      [xSemaphoreTake], the microsecond timer, the interface counters,
      the station list of the access point) is an argument of the function
      that reads it.
    - A pointer argument is an [option]: [None] is [NULL], [Some b] is a
      caller buffer holding [b]. *)

From Stdlib Require Import ZArith Lia Sorted.
From Stdlib Require Import Strings.Byte Strings.Ascii Strings.String.
From stdpp Require Import base tactics option list.

Local Open Scope Z_scope.

(** ** Machine integers *)

Definition wrap32 (z : Z) : Z := z mod 2 ^ 32.
Definition wrap64 (z : Z) : Z := z mod 2 ^ 64.

(** ** Data model ([traffic_stats.h]) *)

(** [uint8_t mac[6]] *)
Record mac_t := Mac {
  mac0 : byte; mac1 : byte; mac2 : byte;
  mac3 : byte; mac4 : byte; mac5 : byte
}.

Definition mac_bytes (m : mac_t) : list byte :=
  [mac0 m; mac1 m; mac2 m; mac3 m; mac4 m; mac5 m].

Definition zero_mac : mac_t := Mac x00 x00 x00 x00 x00 x00.

(** [memcmp(p, q, n)]: zero when the first [n] bytes agree, otherwise the
    difference of the first pair of bytes that differ. *)
Fixpoint memcmp (p q : list byte) (n : nat) : Z :=
  match n, p, q with
  | S n', x :: p', y :: q' =>
      if Byte.eqb x y then memcmp p' q' n'
      else Z.of_N (Byte.to_N x) - Z.of_N (Byte.to_N y)
  | _, _, _ => 0
  end.

(** [traffic_stats_t] *)
Record traffic_stats_t := TrafficStats {
  rx_bytes : Z;        (* uint64_t *)
  tx_bytes : Z;        (* uint64_t *)
  rx_speed : Z;        (* uint32_t *)
  tx_speed : Z;        (* uint32_t *)
  peak_rx_speed : Z;   (* uint32_t *)
  peak_tx_speed : Z;   (* uint32_t *)
  last_update : Z      (* uint32_t *)
}.

(** [client_stats_t] *)
Record client_stats_t := ClientStats {
  mac : mac_t;
  ip : Z;              (* uint32_t *)
  client_rx_bytes : Z; (* uint64_t rx_bytes *)
  client_tx_bytes : Z; (* uint64_t tx_bytes *)
  last_active : Z;     (* uint32_t *)
  active : bool
}.

Definition MAX_CLIENTS : nat := 16.

(** [memset(.., 0, ..)] of each structure. *)
Definition zero_stats : traffic_stats_t := TrafficStats 0 0 0 0 0 0 0.
Definition zero_client : client_stats_t := ClientStats zero_mac 0 0 0 0 false.
Definition zero_clients : list client_stats_t := replicate MAX_CLIENTS zero_client.

(** The statics of [traffic_stats.c].  The mutex and timer handles carry no
    data of their own; what the code observes of them is an argument of the
    functions below. *)
Record state := State {
  g_stats : traffic_stats_t;
  g_clients : list client_stats_t;   (* client_stats_t g_clients[MAX_CLIENTS] *)
  g_start_time : Z;                  (* uint32_t *)
  g_initialized : bool;
  prev_rx_bytes : Z;                 (* uint64_t *)
  prev_tx_bytes : Z;                 (* uint64_t *)
  prev_update_time : Z               (* uint32_t *)
}.

(** Static storage is zero before any call. *)
Definition boot_state : state := State zero_stats zero_clients 0 false 0 0 0.

(** ** Environment of a call *)

(** [get_time_ms]: [(uint32_t)(esp_timer_get_time() / 1000)] on the [int64_t]
    microsecond clock. *)
Definition get_time_ms (timer_us : Z) : Z := wrap32 (timer_us ÷ 1000).

(** One entry of [wifi_sta_mac_ip_list_t]: [sta->mac] and [sta->ip.addr]. *)
Record sta_entry := Sta { sta_mac : mac_t; sta_ip : Z }.

(** Where the cumulative byte counts come from; the branch is fixed by the
    build configuration. *)
Inductive traffic_source :=
  (* CONFIG_ESP_NETIF_REPORT_DATA_TRAFFIC: per interface [(rx_bytes, tx_bytes)],
     [None] when the handle is [NULL] or [esp_netif_get_io_stats] fails *)
  | NetifTraffic (sta_io ap_io : option (Z * Z))
  (* LWIP_STATS && LINK_STATS: [link->recv], [link->xmit] *)
  | LinkTraffic (recv xmit : Z)
  (* neither *)
  | NoTraffic.

Definition DEFAULT_MTU_SIZE : Z := 1500.

Definition add_io (acc : Z * Z) (io : option (Z * Z)) : Z * Z :=
  match io with
  | Some (r, t) => (wrap64 (acc.1 + r), wrap64 (acc.2 + t))
  | None => acc
  end.

(** [(total_rx, total_tx)] as lines 141-170 compute them. *)
Definition read_totals (src : traffic_source) : Z * Z :=
  match src with
  | NetifTraffic sta_io ap_io => add_io (add_io (0, 0) sta_io) ap_io
  | LinkTraffic recv xmit =>
      (wrap64 (wrap64 recv * DEFAULT_MTU_SIZE), wrap64 (wrap64 xmit * DEFAULT_MTU_SIZE))
  | NoTraffic => (0, 0)
  end.

(** Everything one run of [traffic_stats_update] reads from outside. *)
Record tick_env := TickEnv {
  lock_taken : bool;                      (* xSemaphoreTake(..) == pdTRUE *)
  timer_us : Z;                           (* esp_timer_get_time() *)
  traffic : traffic_source;
  sta_list : option (list sta_entry)      (* None: esp_wifi_ap_get_sta_list failed *)
}.

(** ** Client table *)

(** First index [j] with [p g[j]], the [for .. break] scans of lines 222-227
    and 231-236 over the slots of the table; [None] is [slot == -1]. *)
Fixpoint scan_from (p : client_stats_t → bool) (g : list client_stats_t) (j : nat)
  : option nat :=
  match g with
  | [] => None
  | c :: g' => if p c then Some j else scan_from p g' (S j)
  end.

Definition slot_has_mac (m : mac_t) (c : client_stats_t) : bool :=
  memcmp (mac_bytes (mac c)) (mac_bytes m) 6 =? 0.

Definition slot_is_empty (c : client_stats_t) : bool :=
  negb (active c) && (ip c =? 0).

Definition find_mac_slot (g : list client_stats_t) (m : mac_t) : option nat :=
  scan_from (slot_has_mac m) g 0%nat.

Definition find_empty_slot (g : list client_stats_t) : option nat :=
  scan_from slot_is_empty g 0%nat.

Definition find_slot (g : list client_stats_t) (m : mac_t) : option nat :=
  match find_mac_slot g m with
  | Some j => Some j
  | None => find_empty_slot g
  end.

(** Lines 240-243. *)
Definition store_client (sta : sta_entry) (current_time : Z) (c : client_stats_t)
  : client_stats_t :=
  ClientStats (sta_mac sta) (sta_ip sta) (client_rx_bytes c) (client_tx_bytes c)
              current_time true.

(** Body of the loop over the reported stations, lines 218-244. *)
Definition assign_client (current_time : Z) (g : list client_stats_t) (sta : sta_entry)
  : list client_stats_t :=
  match find_slot g sta.(sta_mac) with
  | Some slot => alter (store_client sta current_time) slot g
  | None => g
  end.

Definition deactivate (c : client_stats_t) : client_stats_t :=
  ClientStats (mac c) (ip c) (client_rx_bytes c) (client_tx_bytes c) (last_active c) false.

(** Lines 211-245: every slot inactive, then the first [MAX_CLIENTS] reported
    stations in order. *)
Definition update_clients (g : list client_stats_t) (reported : list sta_entry)
    (current_time : Z) : list client_stats_t :=
  foldl (assign_client current_time) (deactivate <$> g) (take MAX_CLIENTS reported).

(** ** Sampling tick *)

Definition compute_speed (prev total time_diff old_speed : Z) : Z :=
  if (0 <? prev) && (prev <=? total)
  then wrap32 (wrap64 (wrap64 (total - prev) * 1000) / time_diff)
  else old_speed.

Definition raise_peak (speed peak : Z) : Z :=
  if peak <? speed then speed else peak.

Definition elapsed_ms (current_time prev_time : Z) : Z :=
  let time_diff := wrap32 (current_time - prev_time) in
  if time_diff =? 0 then 1 else time_diff.

Definition traffic_stats_update (s : state) (e : tick_env) : state :=
  if negb (g_initialized s) then s
  else if negb (lock_taken e) then s
  else
    let current_time := get_time_ms (timer_us e) in
    let time_diff := elapsed_ms current_time (prev_update_time s) in
    let '(total_rx, total_tx) := read_totals (traffic e) in
    let st := g_stats s in
    let rx_speed' := compute_speed (prev_rx_bytes s) total_rx time_diff (rx_speed st) in
    let tx_speed' := compute_speed (prev_tx_bytes s) total_tx time_diff (tx_speed st) in
    let st' :=
      TrafficStats total_rx total_tx rx_speed' tx_speed'
                   (raise_peak rx_speed' (peak_rx_speed st))
                   (raise_peak tx_speed' (peak_tx_speed st))
                   current_time in
    let clients' :=
      match sta_list e with
      | Some reported => update_clients (g_clients s) reported current_time
      | None => g_clients s
      end in
    State st' clients' (g_start_time s) (g_initialized s) total_rx total_tx current_time.

(** ** Lifecycle *)

(** [esp_err_t] codes used by [traffic_stats_init]. *)
Definition ESP_OK : Z := 0.
Definition ESP_ERR_NO_MEM : Z := 257.

(** [traffic_stats_init]; [mutex_created] is [xSemaphoreCreateMutex() != NULL],
    [create_ret] and [start_ret] are the results of [esp_timer_create] and
    [esp_timer_start_periodic]. *)
Definition traffic_stats_init (s : state) (mutex_created : bool) (timer_now : Z)
    (create_ret start_ret : Z) : state * Z :=
  if g_initialized s then (s, ESP_OK)
  else if negb mutex_created then (s, ESP_ERR_NO_MEM)
  else
    let start := get_time_ms timer_now in
    let s1 := State zero_stats zero_clients start false
                    (prev_rx_bytes s) (prev_tx_bytes s) start in
    if negb (create_ret =? ESP_OK) then (s1, create_ret)
    else if negb (start_ret =? ESP_OK) then (s1, start_ret)
    else (State zero_stats zero_clients start true
                (prev_rx_bytes s) (prev_tx_bytes s) start, ESP_OK).

Definition traffic_stats_deinit (s : state) : state :=
  if negb (g_initialized s) then s
  else State (g_stats s) (g_clients s) (g_start_time s) false
             (prev_rx_bytes s) (prev_tx_bytes s) (prev_update_time s).

(** ** Snapshot functions *)

Definition traffic_stats_get (s : state) (lock : bool) (stats : option traffic_stats_t)
  : option traffic_stats_t :=
  match stats with
  | None => None
  | Some buf =>
      if negb (g_initialized s) then Some zero_stats
      else if lock then Some (g_stats s)
      else Some buf
  end.

(** The copy loop of lines 273-278 over the slots still to visit: [out] is
    [clients[0 .. count)]. *)
Fixpoint copy_active (g : list client_stats_t) (max_clients : Z)
    (out : list client_stats_t) (count : Z) : list client_stats_t * Z :=
  match g with
  | [] => (out, count)
  | c :: g' =>
      if count <? max_clients then
        if active c then copy_active g' max_clients (out ++ [c]) (count + 1)
        else copy_active g' max_clients out count
      else (out, count)
  end.

(** [traffic_stats_get_clients]: the records written to [clients], in the
    order written, and the returned count.  [clients_given] is
    [clients != NULL]. *)
Definition traffic_stats_get_clients (s : state) (lock : bool) (clients_given : bool)
    (max_clients : Z) : list client_stats_t * Z :=
  if negb (g_initialized s) || negb clients_given || (max_clients <=? 0) then ([], 0)
  else if lock then copy_active (g_clients s) max_clients [] 0
  else ([], 0).

Definition traffic_stats_reset (s : state) (lock : bool) (timer_now : Z) : state :=
  if negb (g_initialized s) then s
  else if lock then
    State zero_stats (g_clients s) (get_time_ms timer_now) (g_initialized s)
          0 0 (prev_update_time s)
  else s.

Definition traffic_stats_reset_peak (s : state) (lock : bool) : state :=
  if negb (g_initialized s) then s
  else if lock then
    let st := g_stats s in
    State (TrafficStats (rx_bytes st) (tx_bytes st) (rx_speed st) (tx_speed st) 0 0
                        (last_update st))
          (g_clients s) (g_start_time s) (g_initialized s)
          (prev_rx_bytes s) (prev_tx_bytes s) (prev_update_time s)
  else s.

(** [traffic_stats_get_uptime] *)
Definition traffic_stats_get_uptime (s : state) (timer_now : Z) : Z :=
  if negb (g_initialized s) then 0
  else wrap32 (get_time_ms timer_now - g_start_time s) / 1000.

(** ** Sequences of calls *)

(** The entry points that write the statics, each with what it reads from
    its environment. *)
Inductive api_call :=
  | CallInit (mutex_created : bool) (timer_now create_ret start_ret : Z)
  | CallDeinit
  | CallUpdate (e : tick_env)
  | CallReset (lock : bool) (timer_now : Z)
  | CallResetPeak (lock : bool).

Definition api_step (s : state) (c : api_call) : state :=
  match c with
  | CallInit mutex_created timer_now create_ret start_ret =>
      (traffic_stats_init s mutex_created timer_now create_ret start_ret).1
  | CallDeinit => traffic_stats_deinit s
  | CallUpdate e => traffic_stats_update s e
  | CallReset lock timer_now => traffic_stats_reset s lock timer_now
  | CallResetPeak lock => traffic_stats_reset_peak s lock
  end.

Definition run_calls (s : state) (calls : list api_call) : state :=
  foldl api_step s calls.

(** A sequence of ticks. *)
Definition run_ticks (s : state) (envs : list tick_env) : state :=
  foldl traffic_stats_update s envs.

(** A tick that got the lock and so committed its sample. *)
Definition committed (s : state) (e : tick_env) : bool :=
  g_initialized s && lock_taken e.

(** The hardware addresses of the records with [active == true], in table
    order. *)
Definition is_active (c : client_stats_t) : Prop := active c = true.

#[global] Instance is_active_dec (c : client_stats_t) : Decision (is_active c) :=
  decide (active c = true).

Definition active_macs (g : list client_stats_t) : list mac_t :=
  mac <$> filter is_active g.

(** Every active slot is the first slot of the table that holds its
    address. *)
Definition active_first (g : list client_stats_t) : Prop :=
  ∀ i j ci cj,
    g !! i = Some ci → g !! j = Some cj →
    active cj = true → mac ci = mac cj → (j ≤ i)%nat.

(** ** The allocation policy in the words of the specification

    Section 4.3 of the specification describes the slot taken on a miss as
    the first slot with [active == false], whatever address it still holds.
    [spec_free_slot] and [spec_assign_client] follow those words, to be
    compared with [find_empty_slot] and [assign_client] above. *)

Definition spec_free_slot (g : list client_stats_t) : option nat :=
  scan_from (λ c, negb (active c)) g 0%nat.

Definition spec_assign_client (current_time : Z) (g : list client_stats_t)
    (sta : sta_entry) : list client_stats_t :=
  match find_mac_slot g sta.(sta_mac) with
  | Some slot => alter (store_client sta current_time) slot g
  | None =>
      match spec_free_slot g with
      | Some slot => alter (store_client sta current_time) slot g
      | None => g
      end
  end.

(** ** Sample inputs *)

(** The statics after a first successful [traffic_stats_init] at time 0. *)
Definition init_state : state :=
  (traffic_stats_init boot_state true 0 ESP_OK ESP_OK).1.

(** Station [AA:BB:CC:DD:EE:k] with address [192.168.4.k]. *)
Definition station (k : byte) : sta_entry :=
  Sta (Mac xaa xbb xcc xdd xee k) (3232236544 + Z.of_N (Byte.to_N k)).

(** A tick at [ms] milliseconds that gets the lock, reads the cumulative
    counters [(rx, tx)] from the station interface and is told [reported]. *)
Definition tick_at (ms rx tx : Z) (reported : list sta_entry) : tick_env :=
  TickEnv true (ms * 1000) (NetifTraffic (Some (rx, tx)) None) (Some reported).

(** The same tick when the lock is not obtained in time. *)
Definition tick_timeout (ms rx tx : Z) (reported : list sta_entry) : tick_env :=
  TickEnv false (ms * 1000) (NetifTraffic (Some (rx, tx)) None) (Some reported).

(** Station 1 seen in a first tick and gone in the second. *)
Definition after_leave : state :=
  run_ticks init_state [tick_at 1000 1000 500 [station x01]; tick_at 2000 3000 900 []].

Definition twenty_stations : list sta_entry :=
  station <$> [x01; x02; x03; x04; x05; x06; x07; x08; x09; x0a;
               x0b; x0c; x0d; x0e; x0f; x10; x11; x12; x13; x14].

(** ** Snapshots and samples *)

(** What a reader that gets the lock sees. *)
Definition snapshot (s : state) : traffic_stats_t :=
  default zero_stats (traffic_stats_get s true (Some zero_stats)).

(** The guard of lines 177 and 182. *)
Definition speed_guard (prev total : Z) : Prop := 0 < prev ∧ prev ≤ total.

(** The largest of a list of unsigned speeds. *)
Definition max_speed (l : list Z) : Z := foldr Z.max 0 l.

(** The value of a speed field ([rx_speed] or [tx_speed]) after each committed
    tick of a sequence, oldest first: the speed the tick computed, or the
    earlier value it kept when the guard skipped the computation. *)
Fixpoint speed_samples (fld : traffic_stats_t → Z) (s : state) (envs : list tick_env)
  : list Z :=
  match envs with
  | [] => []
  | e :: envs' =>
      let s' := traffic_stats_update s e in
      (if committed s e then [fld (g_stats s')] else []) ++ speed_samples fld s' envs'
  end.

(** Before a tick, either no earlier sample enables the speed computation or
    the time base equals the [last_update] field. *)
Definition time_base_synced (s : state) : Prop :=
  0 < prev_rx_bytes s ∨ 0 < prev_tx_bytes s →
  prev_update_time s = last_update (g_stats s).

(** ** Ticks and resets of an initialised module *)

(** The calls the counter properties range over. *)
Definition tick_or_reset (c : api_call) : Prop :=
  match c with
  | CallUpdate _ | CallReset _ _ | CallResetPeak _ => True
  | CallInit _ _ _ _ | CallDeinit => False
  end.

(** The cumulative totals handed to the committed ticks of a sequence, oldest
    first. *)
Definition reports (calls : list api_call) : list (Z * Z) :=
  omap (λ c, match c with
             | CallUpdate e =>
                 if lock_taken e then Some (read_totals (traffic e)) else None
             | _ => None
             end) calls.

(** ** Fresh records *)

(** The record a station gets in a slot that was never used. *)
Definition new_record (current_time : Z) (sta : sta_entry) : client_stats_t :=
  store_client sta current_time zero_client.

#[global] Instance byte_eq_decision : EqDecision byte := Byte.byte_eq_dec.

#[global] Instance mac_eq_decision : EqDecision mac_t.
Proof. solve_decision. Defined.

(** ** Predicates on the client table *)

(** A slot is in use when its record is active or still carries an IP; only
    the other slots are given away on a miss. *)
Definition in_use (c : client_stats_t) : Prop := active c = true ∨ ip c ≠ 0.

(** Every slot in use is the first slot of the table that holds its
    address. *)
Definition used_first (g : list client_stats_t) : Prop :=
  ∀ i j ci cj,
    g !! i = Some ci → g !! j = Some cj →
    in_use cj → mac ci = mac cj → (j ≤ i)%nat.

(** Every active record was stored at [now] from one of the stations of
    [done]. *)
Definition seen_now (now : Z) (done : list sta_entry) (g : list client_stats_t) : Prop :=
  ∀ j c, g !! j = Some c → active c = true →
    last_active c = now ∧ ∃ sta, sta ∈ done ∧ mac c = sta_mac sta ∧ ip c = sta_ip sta.

(** Slot [j] holds address [m], is in use, and no earlier slot holds [m]. *)
Definition holds_station (m : mac_t) (j : nat) (g : list client_stats_t) : Prop :=
  ∃ c, g !! j = Some c ∧ mac c = m ∧ in_use c ∧
       ∀ k c', (k < j)%nat → g !! k = Some c' → mac c' ≠ m.

(** Slot [j] holds address [m], refreshed at [now]. *)
Definition refreshed (now : Z) (m : mac_t) (j : nat) (g : list client_stats_t) : Prop :=
  ∃ c, g !! j = Some c ∧ mac c = m ∧ active c = true ∧ last_active c = now ∧
       ∀ k c', (k < j)%nat → g !! k = Some c' → mac c' ≠ m.

(** No slot is free for a new station. *)
Definition table_full (g : list client_stats_t) : Prop :=
  ∀ j c, g !! j = Some c → in_use c.

(** Some active record carries address [m]. *)
Definition has_active (m : mac_t) (g : list client_stats_t) : Prop :=
  ∃ j c, g !! j = Some c ∧ active c = true ∧ mac c = m.

(** The per-client byte counters of a record are both zero. *)
Definition no_client_bytes (c : client_stats_t) : Prop :=
  client_rx_bytes c = 0 ∧ client_tx_bytes c = 0.

(** ** Screens ([ui_screens.h], [ui_screens.c]) *)

(** [screen_id_t]: the enumerators in declaration order.  A value of the
    type is an unsigned integer; the code compares it with [SCREEN_MAX]. *)
Definition SCREEN_DASHBOARD : Z := 0.
Definition SCREEN_CLIENTS : Z := 1.
Definition SCREEN_TRAFFIC : Z := 2.
Definition SCREEN_SETTINGS : Z := 3.
Definition SCREEN_ABOUT : Z := 4.
Definition SCREEN_MAX : Z := 5.

(** The statics of [ui_screens.c], with the statistics module they drive.
    [ui_task_created] is [ui_task_handle != NULL]. *)
Record ui_state := UiState {
  stats : state;
  current_screen : Z;
  ui_initialized : bool;
  ui_task_created : bool;
  ui_task_running : bool
}.

Definition ui_boot_state : ui_state :=
  UiState boot_state SCREEN_DASHBOARD false false false.

(** [ui_update]: what is painted is not modelled, only which screen the
    [switch] selects; [None] when the call returns at once. *)
Definition ui_update (u : ui_state) : option Z :=
  if negb (ui_initialized u) then None
  else
    let c := current_screen u in
    if (c =? SCREEN_DASHBOARD) || (c =? SCREEN_CLIENTS) || (c =? SCREEN_TRAFFIC)
       || (c =? SCREEN_SETTINGS) || (c =? SCREEN_ABOUT)
    then Some c
    else Some SCREEN_DASHBOARD.

(** [ui_switch_screen]: the new statics and the screen drawn, if any. *)
Definition ui_switch_screen (u : ui_state) (screen : Z) : ui_state * option Z :=
  let screen := if SCREEN_MAX <=? screen then SCREEN_DASHBOARD else screen in
  if negb (screen =? current_screen u) then
    let u' := UiState (stats u) screen (ui_initialized u)
                      (ui_task_created u) (ui_task_running u) in
    (u', ui_update u')
  else (u, None).

Definition ui_get_current_screen (u : ui_state) : Z := current_screen u.

Definition ui_next_screen (u : ui_state) : ui_state * option Z :=
  let next := wrap32 (current_screen u + 1) in
  let next := if SCREEN_MAX <=? next then SCREEN_DASHBOARD else next in
  ui_switch_screen u next.

Definition ui_prev_screen (u : ui_state) : ui_state * option Z :=
  let prev := current_screen u in
  let prev := if prev =? 0 then SCREEN_MAX - 1 else wrap32 (prev - 1) in
  ui_switch_screen u prev.

(** [ui_stop_task] *)
Definition ui_stop_task (u : ui_state) : ui_state :=
  if negb (ui_task_created u) then u
  else UiState (stats u) (current_screen u) (ui_initialized u) false false.

(** [ui_start_task]; [created] is [xTaskCreate(..) == pdPASS]. *)
Definition ui_start_task (u : ui_state) (created : bool) : ui_state * Z :=
  if ui_task_created u then (u, ESP_OK)
  else if created
  then (UiState (stats u) (current_screen u) (ui_initialized u) true true, ESP_OK)
  else (UiState (stats u) (current_screen u) (ui_initialized u) false false,
        ESP_ERR_NO_MEM).

(** [ui_init]; [display_ret] is the result of [tft_display_init], the other
    arguments are those of [traffic_stats_init].  Returns the statics, the
    error code and the screen drawn by the closing [ui_update]. *)
Definition ui_init (u : ui_state) (display_ret : Z) (mutex_created : bool)
    (timer_now create_ret start_ret : Z) : ui_state * Z * option Z :=
  if ui_initialized u then (u, ESP_OK, None)
  else if negb (display_ret =? ESP_OK) then (u, display_ret, None)
  else
    let '(s', ret) :=
      traffic_stats_init (stats u) mutex_created timer_now create_ret start_ret in
    if negb (ret =? ESP_OK)
    then (UiState s' (current_screen u) false (ui_task_created u) (ui_task_running u),
          ret, None)
    else
      let u' := UiState s' SCREEN_DASHBOARD true (ui_task_created u) (ui_task_running u) in
      (u', ESP_OK, ui_update u').

(** [ui_deinit] *)
Definition ui_deinit (u : ui_state) : ui_state :=
  if negb (ui_initialized u) then u
  else
    let u1 := ui_stop_task u in
    UiState (traffic_stats_deinit (stats u1)) (current_screen u1) false
            (ui_task_created u1) (ui_task_running u1).

(** ** The speed gauge ([draw_speed_gauge], lines 154-160) *)

Definition wrap8 (z : Z) : Z := z mod 2 ^ 8.

(** The [uint8_t percent] handed to [tft_draw_progress_bar]. *)
Definition gauge_percent (speed max_speed : Z) : Z :=
  if (0 <? max_speed) && (0 <? speed) then
    let percent := wrap8 (wrap32 (speed * 100) / max_speed) in
    if 100 <? percent then 100 else percent
  else 0.

(** The two gauges of [ui_draw_dashboard] on a snapshot: the scale is the
    peak, or 1000000 while the peak is 0. *)
Definition dashboard_rx_percent (st : traffic_stats_t) : Z :=
  gauge_percent (rx_speed st)
                (if 0 <? peak_rx_speed st then peak_rx_speed st else 1000000).

Definition dashboard_tx_percent (st : traffic_stats_t) : Z :=
  gauge_percent (tx_speed st)
                (if 0 <? peak_tx_speed st then peak_tx_speed st else 1000000).

(** The [uint32_t] fields of the statistics hold 32-bit values. *)
Definition speeds_in_range (st : traffic_stats_t) : Prop :=
  0 ≤ rx_speed st < 2 ^ 32 ∧ 0 ≤ tx_speed st < 2 ^ 32 ∧
  0 ≤ peak_rx_speed st < 2 ^ 32 ∧ 0 ≤ peak_tx_speed st < 2 ^ 32.

(** The entry points of [ui_screens.c] that write its statics. *)
Inductive ui_call :=
  | UiInit (display_ret : Z) (mutex_created : bool) (timer_now create_ret start_ret : Z)
  | UiDeinit
  | UiSwitch (screen : Z)
  | UiNext
  | UiPrev
  | UiStartTask (created : bool)
  | UiStopTask.

Definition ui_step (u : ui_state) (c : ui_call) : ui_state :=
  match c with
  | UiInit display_ret mutex_created timer_now create_ret start_ret =>
      (ui_init u display_ret mutex_created timer_now create_ret start_ret).1.1
  | UiDeinit => ui_deinit u
  | UiSwitch screen => (ui_switch_screen u screen).1
  | UiNext => (ui_next_screen u).1
  | UiPrev => (ui_prev_screen u).1
  | UiStartTask created => (ui_start_task u created).1
  | UiStopTask => ui_stop_task u
  end.

(** An argument of type [screen_id_t]. *)
Definition screen_arg_ok (c : ui_call) : Prop :=
  match c with
  | UiSwitch screen => 0 ≤ screen < 2 ^ 32
  | _ => True
  end.

(** ** Text formatting ([tft_display.c]) *)

(** The character of a decimal digit. *)
Definition digit_char (d : Z) : ascii := ascii_of_nat (48 + Z.to_nat d).

(** The decimal digits of an unsigned number, most significant first; the
    fuel bounds the number of digits. *)
Fixpoint decimal_digits (fuel : nat) (n : Z) : list ascii :=
  match fuel with
  | O => []
  | S fuel' =>
      (if n <? 10 then [] else decimal_digits fuel' (n / 10)) ++ [digit_char (n mod 10)]
  end.

(** [%lu] of a 32-bit [unsigned long]: at most ten digits. *)
Definition fmt_lu (n : Z) : list ascii := decimal_digits 10 n.

(** [%02lu]: padded with a zero to two characters. *)
Definition fmt_02lu (n : Z) : list ascii :=
  let s := fmt_lu n in
  if (length s <? 2)%nat then digit_char 0 :: s else s.

(** [snprintf(buffer, buffer_size, ..)] of the formatted [text]: at most
    [buffer_size - 1] characters are stored before the terminator, and
    nothing is written when [buffer_size] is 0. *)
Definition c_snprintf (buffer_size : Z) (text buffer : list ascii) : list ascii :=
  if buffer_size <=? 0 then buffer else take (Z.to_nat (buffer_size - 1)) text.

(** The locals [days], [hours], [mins], [secs] of [format_uptime]. *)
Definition uptime_fields (seconds : Z) : Z * Z * Z * Z :=
  (seconds / 86400, (seconds mod 86400) / 3600, (seconds mod 3600) / 60, seconds mod 60).

Definition uptime_text (seconds : Z) : list ascii :=
  let '(days, hours, mins, secs) := uptime_fields seconds in
  let clock :=
    fmt_02lu hours ++ [":"%char] ++ fmt_02lu mins ++ [":"%char] ++ fmt_02lu secs in
  if 0 <? days then fmt_lu days ++ ["d"%char; " "%char] ++ clock else clock.

(** [format_uptime]: the contents of [buffer] after the call. *)
Definition format_uptime (seconds : Z) (buffer : list ascii) (buffer_size : Z)
  : list ascii :=
  c_snprintf buffer_size (uptime_text seconds) buffer.

(** ** Drawing primitives ([tft_display.c]) *)

Definition TFT_WIDTH : Z := 240.
Definition TFT_HEIGHT : Z := 320.

(** Conversion to [int16_t]. *)
Definition sint16 (z : Z) : Z := (z + 32768) mod 65536 - 32768.

Definition int16 (z : Z) : Prop := -32768 ≤ z ≤ 32767.

(** One call of [esp_lcd_panel_draw_bitmap] with a line buffer filled with
    one colour: the pixels [x_start <= x < x_end], [y_start <= y < y_end] get
    [fill]. *)
Record panel_draw := PanelDraw {
  x_start : Z; y_start : Z; x_end : Z; y_end : Z; fill : Z
}.

Definition paints (d : panel_draw) (px py : Z) : Prop :=
  x_start d ≤ px < x_end d ∧ y_start d ≤ py < y_end d.

(** [tft_fill_rect]; [ready] is [display_initialized && line_buffer != NULL].
    The result lists the panel transfers in the order issued. *)
Definition tft_fill_rect (ready : bool) (x y w h color : Z) : list panel_draw :=
  if negb ready then []
  else
    let '(w, x) := if x <? 0 then (sint16 (w + x), 0) else (w, x) in
    let '(h, y) := if y <? 0 then (sint16 (h + y), 0) else (h, y) in
    let w := if TFT_WIDTH <? x + w then sint16 (TFT_WIDTH - x) else w in
    let h := if TFT_HEIGHT <? y + h then sint16 (TFT_HEIGHT - y) else h in
    if (w <=? 0) || (h <=? 0) then []
    else (λ row, PanelDraw x row (x + w) (row + 1) color) <$> seqZ y h.

Definition tft_draw_hline (ready : bool) (x y w color : Z) : list panel_draw :=
  tft_fill_rect ready x y w 1 color.

Definition tft_draw_vline (ready : bool) (x y h color : Z) : list panel_draw :=
  tft_fill_rect ready x y 1 h color.

(** [tft_draw_rect]: the [int] expressions [y + h - 1] and [x + w - 1] are
    converted to the [int16_t] parameters. *)
Definition tft_draw_rect (ready : bool) (x y w h color : Z) : list panel_draw :=
  tft_draw_hline ready x y w color
  ++ tft_draw_hline ready x (sint16 (y + h - 1)) w color
  ++ tft_draw_vline ready x y h color
  ++ tft_draw_vline ready (sint16 (x + w - 1)) y h color.

(** [draw_pixel]: one pixel, or nothing outside the panel. *)
Definition draw_pixel (x y color : Z) : list panel_draw :=
  if (x <? 0) || (TFT_WIDTH <=? x) || (y <? 0) || (TFT_HEIGHT <=? y) then []
  else [PanelDraw x y (x + 1) (y + 1) color].

(** The end of the body of the two circle loops: [y++], then the update of
    [err] and, when [err >= 0], [x--]; all three variables are [int16_t]. *)
Definition circle_next (x y err : Z) : Z * Z * Z :=
  let y := sint16 (y + 1) in
  if err <? 0 then (x, y, sint16 (err + (2 * y + 1)))
  else
    let x := sint16 (x - 1) in
    (x, y, sint16 (err + 2 * (y - x + 1))).

(** [while (x >= y) { body; y++; .. }]: the transfers of all iterations, or
    [None] when the fuel does not reach the end of the loop. *)
Fixpoint circle_loop (fuel : nat) (body : Z → Z → list panel_draw) (x y err : Z)
  : option (list panel_draw) :=
  match fuel with
  | O => None
  | S fuel' =>
      if x <? y then Some []
      else
        let '(x', y', err') := circle_next x y err in
        (λ rest, body x y ++ rest) <$> circle_loop fuel' body x' y' err'
  end.

(** The values of [(x, y)] at the start of each iteration. *)
Fixpoint circle_steps (fuel : nat) (x y err : Z) : list (Z * Z) :=
  match fuel with
  | O => []
  | S fuel' =>
      if x <? y then []
      else
        let '(x', y', err') := circle_next x y err in
        (x, y) :: circle_steps fuel' x' y' err'
  end.

(** The four lines of one iteration of [tft_fill_circle]; the [int]
    expressions are converted to the [int16_t] parameters of
    [tft_draw_hline]. *)
Definition fill_circle_body (ready : bool) (x0 y0 color x y : Z) : list panel_draw :=
  tft_draw_hline ready (sint16 (x0 - x)) (sint16 (y0 + y)) (sint16 (2 * x + 1)) color
  ++ tft_draw_hline ready (sint16 (x0 - x)) (sint16 (y0 - y)) (sint16 (2 * x + 1)) color
  ++ tft_draw_hline ready (sint16 (x0 - y)) (sint16 (y0 + x)) (sint16 (2 * y + 1)) color
  ++ tft_draw_hline ready (sint16 (x0 - y)) (sint16 (y0 - x)) (sint16 (2 * y + 1)) color.

(** The eight pixels of one iteration of [tft_draw_circle]. *)
Definition draw_circle_body (x0 y0 color x y : Z) : list panel_draw :=
  draw_pixel (sint16 (x0 + x)) (sint16 (y0 + y)) color
  ++ draw_pixel (sint16 (x0 - x)) (sint16 (y0 + y)) color
  ++ draw_pixel (sint16 (x0 + x)) (sint16 (y0 - y)) color
  ++ draw_pixel (sint16 (x0 - x)) (sint16 (y0 - y)) color
  ++ draw_pixel (sint16 (x0 + y)) (sint16 (y0 + x)) color
  ++ draw_pixel (sint16 (x0 - y)) (sint16 (y0 + x)) color
  ++ draw_pixel (sint16 (x0 + y)) (sint16 (y0 - x)) color
  ++ draw_pixel (sint16 (x0 - y)) (sint16 (y0 - x)) color.

(** Iterations allowed to a circle of radius [r]; the loop needs at most
    [r + 1]. *)
Definition circle_fuel (r : Z) : nat := Z.to_nat r + 2.

(** [tft_fill_circle] *)
Definition tft_fill_circle (ready : bool) (x0 y0 r color : Z) : option (list panel_draw) :=
  if r <=? 0 then Some []
  else circle_loop (circle_fuel r) (fill_circle_body ready x0 y0 color)
                   r 0 (sint16 (1 - r)).

(** [tft_draw_circle], on a display that is initialised ([draw_pixel] does
    not test it). *)
Definition tft_draw_circle (x0 y0 r color : Z) : option (list panel_draw) :=
  if r <=? 0 then Some []
  else circle_loop (circle_fuel r) (draw_circle_body x0 y0 color)
                   r 0 (sint16 (1 - r)).

(** The steps of the loop for radius [r]. *)
Definition circle_octant (r : Z) : list (Z * Z) :=
  circle_steps (circle_fuel r) r 0 (sint16 (1 - r)).

(** A pixel painted by some transfer of a list. *)
Definition painted (l : list panel_draw) (px py : Z) : Prop :=
  ∃ d, d ∈ l ∧ paints d px py.

Definition on_panel (px py : Z) : Prop :=
  0 ≤ px < TFT_WIDTH ∧ 0 ≤ py < TFT_HEIGHT.

(** ** The claims in the words of the specification *)



(** The speeds computed over a sequence of ticks, oldest first, as the
    specification words the peak: a committed tick contributes the speed it
    computes (the guard of line 177, or 182 for transmit, passes) and nothing
    when it skips the computation. *)
Fixpoint computed_speeds (rx : bool) (s : state) (envs : list tick_env) : list Z :=
  match envs with
  | [] => []
  | e :: envs' =>
      let s' := traffic_stats_update s e in
      let prev := if rx then prev_rx_bytes s else prev_tx_bytes s in
      let total := if rx then (read_totals (traffic e)).1 else (read_totals (traffic e)).2 in
      let speed := if rx then rx_speed (g_stats s') else tx_speed (g_stats s') in
      (if committed s e && (0 <? prev) && (prev <=? total) then [speed] else [])
      ++ computed_speeds rx s' envs'
  end.

(** ** Basic facts *)

Lemma wrap32_range z : 0 ≤ wrap32 z < 2 ^ 32.
Proof. unfold wrap32. apply Z.mod_pos_bound. lia. Qed.

Lemma wrap64_range z : 0 ≤ wrap64 z < 2 ^ 64.
Proof. unfold wrap64. apply Z.mod_pos_bound. lia. Qed.

Lemma wrap64_small z : 0 ≤ z < 2 ^ 64 → wrap64 z = z.
Proof. intros H. unfold wrap64. apply Z.mod_small. lia. Qed.

Lemma byte_diff_zero x y :
  Byte.eqb x y = false → Z.of_N (Byte.to_N x) - Z.of_N (Byte.to_N y) ≠ 0.
Proof.
  intros Hne Hz. apply Byte.eqb_false in Hne. apply Hne.
  assert (Hxy : Byte.to_N x = Byte.to_N y) by lia.
  pose proof (Byte.of_to_N x) as Hx. pose proof (Byte.of_to_N y) as Hy.
  rewrite Hxy in Hx. congruence.
Qed.

Lemma memcmp_mac_zero a b :
  memcmp (mac_bytes a) (mac_bytes b) 6 = 0 ↔ a = b.
Proof.
  destruct a as [a0 a1 a2 a3 a4 a5], b as [c0 c1 c2 c3 c4 c5].
  unfold mac_bytes; simpl. split.
  - repeat match goal with
      | |- context [Byte.eqb ?x ?y] =>
          let E := fresh "E" in
          destruct (Byte.eqb x y) eqn:E;
          [apply Byte.byte_dec_bl in E; subst
          | intros Hz; exfalso; exact (byte_diff_zero _ _ E Hz)]
      end.
    reflexivity.
  - intros [= -> -> -> -> -> ->].
    rewrite !Byte.byte_dec_lb by reflexivity. reflexivity.
Qed.

Lemma slot_has_mac_true m c : slot_has_mac m c = true ↔ mac c = m.
Proof. unfold slot_has_mac. rewrite Z.eqb_eq. apply memcmp_mac_zero. Qed.

Lemma slot_has_mac_false m c : slot_has_mac m c = false ↔ mac c ≠ m.
Proof.
  rewrite <- slot_has_mac_true. destruct (slot_has_mac m c); split; congruence.
Qed.

Lemma slot_is_empty_true c : slot_is_empty c = true ↔ active c = false ∧ ip c = 0.
Proof.
  unfold slot_is_empty. rewrite andb_true_iff, negb_true_iff, Z.eqb_eq. tauto.
Qed.

(** What a scan returns: the least index whose slot passes the test. *)
Lemma scan_from_Some p g j0 j :
  scan_from p g j0 = Some j ↔
  ∃ i c, j = (j0 + i)%nat ∧ g !! i = Some c ∧ p c = true ∧
         ∀ k c', (k < i)%nat → g !! k = Some c' → p c' = false.
Proof.
  revert j0. induction g as [|c g IH]; intros j0; simpl.
  - split; [discriminate | intros (i & c & _ & Hl & _); discriminate].
  - destruct (p c) eqn:Hp.
    + split.
      * intros [= <-]. exists 0%nat, c. split_and!; [lia | done | done |].
        intros k c' Hk. lia.
      * intros (i & c' & -> & Hl & Hc' & Hleast).
        destruct i as [|i]; [f_equal; lia |].
        specialize (Hleast 0%nat c ltac:(lia) eq_refl). congruence.
    + rewrite IH. split.
      * intros (i & c' & -> & Hl & Hc' & Hleast).
        exists (S i), c'. split_and!; [lia | done | done |].
        intros [|k] c'' Hk Hl'; simpl in Hl'; [congruence |].
        apply (Hleast k); [lia | done].
      * intros (i & c' & -> & Hl & Hc' & Hleast).
        destruct i as [|i]; simpl in Hl; [congruence |].
        exists i, c'. split_and!; [lia | done | done |].
        intros k c'' Hk Hl'. apply (Hleast (S k)); [lia | done].
Qed.

Lemma scan_from_None p g j0 :
  scan_from p g j0 = None ↔ ∀ i c, g !! i = Some c → p c = false.
Proof.
  revert j0. induction g as [|c g IH]; intros j0; simpl.
  - split; [intros _ i c; discriminate | done].
  - destruct (p c) eqn:Hp.
    + split; [discriminate |]. intros H. specialize (H 0%nat c eq_refl). congruence.
    + rewrite IH. split.
      * intros H [|i] c'; simpl; [congruence | apply H].
      * intros H i c' Hl. apply (H (S i)). done.
Qed.

Lemma find_mac_slot_Some g m j :
  find_mac_slot g m = Some j ↔
  ∃ c, g !! j = Some c ∧ mac c = m ∧
       ∀ k c', (k < j)%nat → g !! k = Some c' → mac c' ≠ m.
Proof.
  unfold find_mac_slot. rewrite scan_from_Some. split.
  - intros (i & c & -> & Hl & Hp & Hleast). exists c.
    split_and!; [done | by apply slot_has_mac_true |].
    intros k c' Hk Hl'. apply slot_has_mac_false. eauto.
  - intros (c & Hl & Hm & Hleast). exists j, c.
    split_and!; [done | done | by apply slot_has_mac_true |].
    intros k c' Hk Hl'. apply slot_has_mac_false. eauto.
Qed.

Lemma find_mac_slot_None g m :
  find_mac_slot g m = None ↔ ∀ i c, g !! i = Some c → mac c ≠ m.
Proof.
  unfold find_mac_slot. rewrite scan_from_None.
  split; intros H i c Hl; apply slot_has_mac_false; eauto.
Qed.

Lemma find_empty_slot_Some g j :
  find_empty_slot g = Some j ↔
  ∃ c, g !! j = Some c ∧ active c = false ∧ ip c = 0 ∧
       ∀ k c', (k < j)%nat → g !! k = Some c' → active c' = true ∨ ip c' ≠ 0.
Proof.
  assert (Hne : ∀ c, slot_is_empty c = false ↔ active c = true ∨ ip c ≠ 0).
  { intros c. unfold slot_is_empty.
    destruct (active c), (Z.eqb_spec (ip c) 0); simpl; split; intros; try done; auto.
    destruct H; done. }
  unfold find_empty_slot. rewrite scan_from_Some. split.
  - intros (i & c & -> & Hl & Hp & Hleast). apply slot_is_empty_true in Hp as [? ?].
    exists c. split_and!; try done. intros k c' Hk Hl'. apply Hne. eauto.
  - intros (c & Hl & Ha & Hi & Hleast). exists j, c.
    split_and!; [done | done | by apply slot_is_empty_true |].
    intros k c' Hk Hl'. apply Hne. eauto.
Qed.

Lemma find_empty_slot_None g :
  find_empty_slot g = None ↔
  ∀ i c, g !! i = Some c → active c = true ∨ ip c ≠ 0.
Proof.
  unfold find_empty_slot. rewrite scan_from_None.
  split; intros H i c Hl; specialize (H i c Hl); unfold slot_is_empty in *;
    destruct (active c), (Z.eqb_spec (ip c) 0); simpl in *; try done; auto.
  destruct H; done.
Qed.

(** ** The client table keeps active addresses apart *)

Lemma lookup_store now sta s (g : list client_stats_t) k ck :
  alter (store_client sta now) s g !! k = Some ck →
  ∃ c0, g !! k = Some c0 ∧
        ((k = s ∧ ck = store_client sta now c0) ∨ (k ≠ s ∧ ck = c0)).
Proof.
  intros H. destruct (decide (s = k)) as [->|Hne].
  - rewrite list_lookup_alter_eq in H.
    destruct (g !! k) as [c0|] eqn:E; simpl in H; [|discriminate].
    exists c0. split; [done |]. left. split; congruence.
  - rewrite list_lookup_alter_ne in H by done. exists ck. split; [done |].
    right. split; congruence.
Qed.

Lemma active_first_deactivate g : active_first (deactivate <$> g).
Proof.
  intros i j ci cj _ Hj Hact _. rewrite list_lookup_fmap in Hj.
  destruct (g !! j); simpl in Hj; [|discriminate].
  injection Hj as <-. discriminate.
Qed.

Lemma active_first_assign now g sta :
  active_first g → active_first (assign_client now g sta).
Proof.
  intros Hinv. unfold assign_client, find_slot.
  destruct (find_mac_slot g (sta_mac sta)) as [s|] eqn:Hm.
  - apply find_mac_slot_Some in Hm as (c & Hs & Hmac & Hleast).
    intros i j ci cj Hi Hj Hact Heq.
    apply lookup_store in Hi as (ci0 & Hi0 & Hi).
    apply lookup_store in Hj as (cj0 & Hj0 & Hj).
    assert (Hmi : mac ci = mac ci0).
    { destruct Hi as [[-> ->]|[_ ->]]; [simpl; congruence | done]. }
    destruct Hj as [[-> ->]|[Hne ->]].
    + simpl in Heq. destruct (decide (s ≤ i)%nat) as [|Hlt]; [done |].
      exfalso. apply (Hleast i ci0); [lia | done | congruence].
    + apply (Hinv i j ci0 cj0); [done | done | done | congruence].
  - pose proof (proj1 (find_mac_slot_None _ _) Hm) as Hmiss. clear Hm.
    rename Hmiss into Hm.
    destruct (find_empty_slot g) as [s|] eqn:He; [|done].
    apply find_empty_slot_Some in He as (c & Hs & Hina & _).
    intros i j ci cj Hi Hj Hact Heq.
    apply lookup_store in Hi as (ci0 & Hi0 & Hi).
    apply lookup_store in Hj as (cj0 & Hj0 & Hj).
    destruct Hj as [[-> ->]|[Hnej ->]], Hi as [[-> ->]|[Hnei ->]]; simpl in *.
    + done.
    + exfalso. by apply (Hm i ci0).
    + exfalso. apply (Hm j cj0); [done | congruence].
    + by apply (Hinv i j ci0 cj0).
Qed.

Lemma active_first_update_clients g reported now :
  active_first (update_clients g reported now).
Proof.
  unfold update_clients.
  generalize (take MAX_CLIENTS reported) as l.
  generalize (active_first_deactivate g).
  generalize (deactivate <$> g) as t.
  intros t Ht l. revert t Ht.
  induction l as [|sta l IH]; intros t Ht; simpl; [done |].
  apply IH. by apply active_first_assign.
Qed.

Lemma active_first_zero : active_first zero_clients.
Proof.
  intros i j ci cj _ Hj Hact _.
  apply lookup_replicate_1 in Hj as [-> _]. discriminate.
Qed.

Lemma active_macs_NoDup g : active_first g → NoDup (active_macs g).
Proof.
  unfold active_macs. induction g as [|c g IH]; intros Hinv; [constructor |].
  assert (Htl : active_first g).
  { intros i j ci cj Hi Hj Hact Heq.
    specialize (Hinv (S i) (S j) ci cj Hi Hj Hact Heq). lia. }
  destruct (decide (is_active c)) as [Hc|Hc].
  - rewrite filter_cons_True by done. rewrite fmap_cons.
    apply NoDup_cons. split; [|by apply IH].
    intros (c' & Heq & [Hc' Hin]%list_elem_of_filter)%list_elem_of_fmap.
    apply list_elem_of_lookup in Hin as [k Hk].
    specialize (Hinv 0%nat (S k) c c' eq_refl Hk Hc' Heq). lia.
  - rewrite filter_cons_False by done. by apply IH.
Qed.

Lemma active_first_update s e :
  active_first (g_clients s) → active_first (g_clients (traffic_stats_update s e)).
Proof.
  intros H. unfold traffic_stats_update.
  destruct (g_initialized s); simpl; [|done].
  destruct (lock_taken e); simpl; [|done].
  destruct (read_totals (traffic e)) as [total_rx total_tx]. simpl.
  destruct (sta_list e); [apply active_first_update_clients | done].
Qed.

Lemma active_first_step s c :
  active_first (g_clients s) → active_first (g_clients (api_step s c)).
Proof.
  intros H. destruct c as [m t cr sr| |e|l t|l]; simpl.
  - unfold traffic_stats_init.
    destruct (g_initialized s); [done |].
    destruct m; simpl; [|done].
    destruct (cr =? ESP_OK); simpl; [|apply active_first_zero].
    destruct (sr =? ESP_OK); simpl; apply active_first_zero.
  - unfold traffic_stats_deinit. by destruct (g_initialized s).
  - by apply active_first_update.
  - unfold traffic_stats_reset. by destruct (g_initialized s), l.
  - unfold traffic_stats_reset_peak. by destruct (g_initialized s), l.
Qed.

Lemma active_first_run s calls :
  active_first (g_clients s) → active_first (g_clients (run_calls s calls)).
Proof.
  revert s. induction calls as [|c calls IH]; intros s H; simpl; [done |].
  apply IH. by apply active_first_step.
Qed.

(** The table keeps its [MAX_CLIENTS] slots, so the scans over the list are
    the loops [for (j = 0; j < MAX_CLIENTS; j++)]. *)
Lemma assign_client_length now g sta :
  length (assign_client now g sta) = length g.
Proof.
  unfold assign_client. destruct (find_slot g (sta_mac sta)); [|done].
  apply length_alter.
Qed.

Lemma update_clients_length g reported now :
  length (update_clients g reported now) = length g.
Proof.
  unfold update_clients. rewrite <- (length_fmap deactivate g).
  generalize (deactivate <$> g) as t.
  induction (take MAX_CLIENTS reported) as [|sta l IH]; intros t; simpl; [done |].
  by rewrite IH, assign_client_length.
Qed.

Lemma table_size_run calls :
  length (g_clients (run_calls boot_state calls)) = MAX_CLIENTS.
Proof.
  assert (Hgen : ∀ s, length (g_clients s) = MAX_CLIENTS →
                      length (g_clients (run_calls s calls)) = MAX_CLIENTS).
  { induction calls as [|c calls IH]; intros s Hs; simpl; [done |].
    apply IH. destruct c as [m t cr sr| |e|l t|l]; simpl.
    - unfold traffic_stats_init. destruct (g_initialized s); [done |].
      destruct m; simpl; [|done].
      destruct (cr =? ESP_OK); simpl; [|done].
      by destruct (sr =? ESP_OK).
    - unfold traffic_stats_deinit. by destruct (g_initialized s).
    - unfold traffic_stats_update. destruct (g_initialized s); simpl; [|done].
      destruct (lock_taken e); simpl; [|done].
      destruct (read_totals (traffic e)). simpl.
      destruct (sta_list e); [by rewrite update_clients_length | done].
    - unfold traffic_stats_reset. by destruct (g_initialized s), l.
    - unfold traffic_stats_reset_peak. by destruct (g_initialized s), l. }
  by apply Hgen.
Qed.

(** C2.  In every state reached from the zeroed statics by a sequence of
    calls to the entry points (update ticks with any lock outcome, clock,
    counters and station list, and also init, deinit, reset and reset_peak),
    the hardware addresses of the records with [active == true] are pairwise
    different. *)
Theorem active_addresses_distinct (calls : list api_call) :
  NoDup (active_macs (g_clients (run_calls boot_state calls))).
Proof.
  apply active_macs_NoDup, active_first_run. exact active_first_zero.
Qed.

(** ** Allocation of a slot on a miss *)

Lemma assign_client_slot now g sta j :
  find_slot g (sta_mac sta) = Some j →
  ∃ c, g !! j = Some c ∧
       assign_client now g sta !! j = Some (store_client sta now c) ∧
       ∀ k, k ≠ j → assign_client now g sta !! k = g !! k.
Proof.
  intros Hf. unfold assign_client. rewrite Hf.
  assert (is_Some (g !! j)) as [c Hc].
  { unfold find_slot in Hf. destruct (find_mac_slot g (sta_mac sta)) eqn:Hm.
    - injection Hf as ->. apply find_mac_slot_Some in Hm as (c & ? & _). eauto.
    - apply find_empty_slot_Some in Hf as (c & ? & _). eauto. }
  exists c. split_and!; [done | |].
  - by rewrite list_lookup_alter_eq, Hc.
  - intros k Hk. by rewrite list_lookup_alter_ne.
Qed.

(** C1, as the code has it.  When the reported address is in no slot of the
    table, the record goes to the first slot that has [active == false] and
    [ip == 0]: that slot gets the reported address and IP, [active = true]
    and [last_active = current_time], whatever address it held, and every
    other slot is unchanged.  When no slot is both inactive and without IP,
    the table is unchanged. *)
Theorem miss_takes_first_empty_slot now g sta :
  find_mac_slot g (sta_mac sta) = None →
  match find_empty_slot g with
  | Some j =>
      ∃ c, g !! j = Some c ∧ active c = false ∧ ip c = 0 ∧
           (∀ k c', (k < j)%nat → g !! k = Some c' → active c' = true ∨ ip c' ≠ 0) ∧
           assign_client now g sta !! j = Some (store_client sta now c) ∧
           ∀ k, k ≠ j → assign_client now g sta !! k = g !! k
  | None =>
      (∀ i c, g !! i = Some c → active c = true ∨ ip c ≠ 0) ∧
      assign_client now g sta = g
  end.
Proof.
  intros Hmiss. destruct (find_empty_slot g) as [j|] eqn:He.
  - assert (Hf : find_slot g (sta_mac sta) = Some j).
    { unfold find_slot. by rewrite Hmiss. }
    destruct (assign_client_slot now g sta j Hf) as (c & Hc & Hj & Hother).
    apply find_empty_slot_Some in He as (c' & Hc' & Ha & Hi & Hleast).
    assert (c' = c) as -> by congruence.
    exists c. split_and!; done.
  - split; [by apply find_empty_slot_None |].
    unfold assign_client, find_slot. by rewrite Hmiss, He.
Qed.

(** At the table left by [after_leave], seen by the next tick: a new station
    goes to slot 1, and slot 0 keeps the address of the station that left. *)
Lemma miss_takes_first_empty_slot_witness :
  let g := deactivate <$> g_clients after_leave in
  find_mac_slot g (sta_mac (station x02)) = None ∧
  find_empty_slot g = Some 1%nat ∧
  assign_client 3000 g (station x02) !! 1%nat
    = Some (store_client (station x02) 3000 zero_client) ∧
  assign_client 3000 g (station x02) !! 0%nat = g !! 0%nat.
Proof.
  intros g.
  assert (Hmiss : find_mac_slot g (sta_mac (station x02)) = None) by reflexivity.
  pose proof (miss_takes_first_empty_slot 3000 g (station x02) Hmiss) as H.
  change (find_empty_slot g) with (Some 1%nat) in H.
  destruct H as (c & Hc & _ & _ & _ & Hj & Hother).
  split_and!; [reflexivity | reflexivity | | apply Hother; lia].
  rewrite Hj. f_equal. f_equal.
  change (g !! 1%nat) with (Some zero_client) in Hc. congruence.
Defined.

(** C1, as stated, fails.  Station 1 (with an IP) was seen and then absent
    for one cycle, so slot 0 is the first slot with [active == false]; a
    different station reported on the next cycle is in no slot, yet the code
    leaves slot 0 alone and puts the station in slot 1, where the policy of
    the specification would have overwritten slot 0. *)
Lemma stale_slot_not_reused :
  let g := deactivate <$> g_clients after_leave in
  let g' := assign_client 3000 g (station x02) in
  find_mac_slot g (sta_mac (station x02)) = None ∧
  spec_free_slot g = Some 0%nat ∧
  mac <$> g' !! 0%nat = Some (sta_mac (station x01)) ∧
  mac <$> g' !! 1%nat = Some (sta_mac (station x02)) ∧
  g' ≠ spec_assign_client 3000 g (station x02).
Proof.
  vm_compute. split_and!; try reflexivity. discriminate.
Qed.

(** ** Speed derivation *)

Lemma read_totals_range src :
  0 ≤ (read_totals src).1 < 2 ^ 64 ∧ 0 ≤ (read_totals src).2 < 2 ^ 64.
Proof.
  destruct src as [[[r1 t1]|] [[r2 t2]|] |recv xmit|]; simpl;
    repeat split; try apply wrap64_range; lia.
Qed.

Lemma elapsed_ms_max now prev : elapsed_ms now prev = Z.max 1 (wrap32 (now - prev)).
Proof.
  unfold elapsed_ms. pose proof (wrap32_range (now - prev)).
  destruct (Z.eqb_spec (wrap32 (now - prev)) 0); lia.
Qed.

Lemma elapsed_ms_pos now prev : 0 < elapsed_ms now prev.
Proof. rewrite elapsed_ms_max. lia. Qed.

Lemma compute_speed_guard prev total time_diff old :
  0 ≤ total < 2 ^ 64 → speed_guard prev total →
  compute_speed prev total time_diff old
  = wrap32 (wrap64 ((total - prev) * 1000) / time_diff).
Proof.
  intros Hr [Hp Hle]. unfold compute_speed.
  destruct (Z.ltb_spec 0 prev); [|lia].
  destruct (Z.leb_spec prev total); [|lia]. simpl.
  rewrite (wrap64_small (total - prev)) by lia. reflexivity.
Qed.


(** Without overflow the truncations disappear and the speed is the plain
    quotient. *)
Lemma compute_speed_exact prev total time_diff old :
  speed_guard prev total → 0 < time_diff →
  (total - prev) * 1000 < 2 ^ 64 →
  (total - prev) * 1000 / time_diff < 2 ^ 32 →
  compute_speed prev total time_diff old = (total - prev) * 1000 / time_diff.
Proof.
  intros [Hp Hle] Ht H64 H32. unfold compute_speed.
  destruct (Z.ltb_spec 0 prev); [|lia].
  destruct (Z.leb_spec prev total); [|lia]. simpl.
  rewrite (wrap64_small (total - prev)) by lia.
  rewrite (wrap64_small ((total - prev) * 1000)) by lia.
  unfold wrap32. apply Z.mod_small. split; [|done].
  apply Z.div_pos; lia.
Qed.

(** The fields of the state left by a tick that holds the lock. *)
Lemma update_committed s e :
  g_initialized s = true → lock_taken e = true →
  let now := get_time_ms (timer_us e) in
  let total_rx := (read_totals (traffic e)).1 in
  let total_tx := (read_totals (traffic e)).2 in
  let time_diff := elapsed_ms now (prev_update_time s) in
  let rx := compute_speed (prev_rx_bytes s) total_rx time_diff (rx_speed (g_stats s)) in
  let tx := compute_speed (prev_tx_bytes s) total_tx time_diff (tx_speed (g_stats s)) in
  traffic_stats_update s e =
  State (TrafficStats total_rx total_tx rx tx
           (raise_peak rx (peak_rx_speed (g_stats s)))
           (raise_peak tx (peak_tx_speed (g_stats s))) now)
        (match sta_list e with
         | Some reported => update_clients (g_clients s) reported now
         | None => g_clients s
         end)
        (g_start_time s) true total_rx total_tx now.
Proof.
  intros Hi Hl. unfold traffic_stats_update. rewrite Hi, Hl. simpl.
  destruct (read_totals (traffic e)) as [total_rx total_tx]. reflexivity.
Qed.

Lemma update_abandoned s e :
  committed s e = false → traffic_stats_update s e = s.
Proof.
  unfold committed, traffic_stats_update.
  destruct (g_initialized s), (lock_taken e); simpl; done.
Qed.




(** After a committed tick the time base and [last_update] coincide. *)
Lemma time_base_after_tick s e :
  committed s e = true →
  prev_update_time (traffic_stats_update s e)
  = last_update (g_stats (traffic_stats_update s e)).
Proof.
  unfold committed. intros [Hi Hl]%andb_true_iff.
  by rewrite (update_committed s e Hi Hl).
Qed.

Lemma time_base_synced_step s c :
  c ≠ CallDeinit →
  time_base_synced s ∧
    (g_initialized s = false → prev_rx_bytes s = 0 ∧ prev_tx_bytes s = 0) →
  time_base_synced (api_step s c) ∧
    (g_initialized (api_step s c) = false →
     prev_rx_bytes (api_step s c) = 0 ∧ prev_tx_bytes (api_step s c) = 0).
Proof.
  intros Hc [Hs Hz]. unfold time_base_synced in *.
  destruct c as [m t cr sr| |e|l t|l]; simpl; [|done| | |].
  - unfold traffic_stats_init. destruct (g_initialized s) eqn:Hi; simpl.
    { rewrite Hi. done. }
    destruct (Hz eq_refl) as [Hr Ht].
    destruct m; simpl; [|rewrite Hi; done].
    destruct (cr =? ESP_OK); simpl; [|split; [lia | done]].
    destruct (sr =? ESP_OK); simpl; (split; [lia | done]).
  - destruct (committed s e) eqn:Hc'.
    + split; [intros _; by apply time_base_after_tick |].
      unfold committed in Hc'. apply andb_true_iff in Hc' as [Hi Hl].
      rewrite (update_committed s e Hi Hl). simpl. done.
    + by rewrite update_abandoned.
  - unfold traffic_stats_reset. destruct (g_initialized s) eqn:Hi, l; simpl;
      rewrite ?Hi; try done. split; [lia | done].
  - unfold traffic_stats_reset_peak. destruct (g_initialized s) eqn:Hi, l; simpl;
      rewrite ?Hi; done.
Qed.

(** From the zeroed statics, as long as the module is not torn down and set
    up again, a tick that computes a speed measures the time from
    [last_update]. *)
Lemma time_base_synced_run calls :
  CallDeinit ∉ calls → time_base_synced (run_calls boot_state calls).
Proof.
  intros Hnd.
  assert (Hgen : ∀ s,
    time_base_synced s ∧
      (g_initialized s = false → prev_rx_bytes s = 0 ∧ prev_tx_bytes s = 0) →
    time_base_synced (run_calls s calls)).
  { induction calls as [|c calls IH]; intros s Hs; simpl; [by destruct Hs |].
    apply not_elem_of_cons in Hnd as [Hc Hnd].
    apply IH; [done |]. apply time_base_synced_step; [congruence | done]. }
  apply Hgen. split; [|done]. unfold time_base_synced. simpl. lia.
Qed.

(** ** Peak tracking *)

Lemma raise_peak_max speed peak : raise_peak speed peak = Z.max peak speed.
Proof. unfold raise_peak. destruct (Z.ltb_spec peak speed); lia. Qed.

Lemma max_speed_nonneg l : 0 ≤ max_speed l.
Proof. induction l; simpl; lia. Qed.

Lemma run_ticks_initialized s envs :
  g_initialized (run_ticks s envs) = g_initialized s.
Proof.
  revert s. induction envs as [|e envs IH]; intros s; simpl; [done |].
  unfold run_ticks in IH. rewrite IH. unfold traffic_stats_update.
  destruct (g_initialized s) eqn:Hi; simpl; [|done].
  destruct (lock_taken e); simpl; [|done].
  by destruct (read_totals (traffic e)).
Qed.

Lemma update_peaks s e :
  let s' := traffic_stats_update s e in
  peak_rx_speed (g_stats s')
    = (if committed s e then Z.max (peak_rx_speed (g_stats s)) (rx_speed (g_stats s'))
       else peak_rx_speed (g_stats s)) ∧
  peak_tx_speed (g_stats s')
    = (if committed s e then Z.max (peak_tx_speed (g_stats s)) (tx_speed (g_stats s'))
       else peak_tx_speed (g_stats s)).
Proof.
  cbv zeta. destruct (committed s e) eqn:Hc.
  - unfold committed in Hc. apply andb_true_iff in Hc as [Hi Hl].
    rewrite (update_committed s e Hi Hl). simpl.
    by rewrite !raise_peak_max.
  - by rewrite update_abandoned.
Qed.

Lemma peaks_over_ticks envs : ∀ s,
  0 ≤ peak_rx_speed (g_stats s) → 0 ≤ peak_tx_speed (g_stats s) →
  peak_rx_speed (g_stats (run_ticks s envs))
    = Z.max (peak_rx_speed (g_stats s)) (max_speed (speed_samples rx_speed s envs)) ∧
  peak_tx_speed (g_stats (run_ticks s envs))
    = Z.max (peak_tx_speed (g_stats s)) (max_speed (speed_samples tx_speed s envs)).
Proof.
  induction envs as [|e envs IH]; intros s Hrx Htx; [simpl; lia |].
  change (run_ticks s (e :: envs)) with (run_ticks (traffic_stats_update s e) envs).
  destruct (update_peaks s e) as [Hprx Hptx]. cbv zeta in Hprx, Hptx.
  cbn [speed_samples].
  destruct (IH (traffic_stats_update s e)) as [IHr IHt].
  { rewrite Hprx. destruct (committed s e); lia. }
  { rewrite Hptx. destruct (committed s e); lia. }
  rewrite IHr, IHt, Hprx, Hptx.
  destruct (committed s e); simpl; lia.
Qed.

(** C4, as stated, fails: the peak can exceed every speed computed since
    the peak reset.  Ticks at 1000 ms (1000 bytes received) and 2000 ms (3000
    bytes) leave [rx_speed] = 2000.  After [reset_peak()] the tick at 3000 ms
    reports 200 bytes, below the baseline: the guard fails, no speed is
    computed, [rx_speed] keeps 2000 and line 188 raises the peak to it.  The
    maximum of the speeds computed since the reset is 0, the peak is 2000. *)
Lemma kept_speed_raises_peak :
  let s := run_ticks init_state [tick_at 1000 1000 700 []; tick_at 2000 3000 700 []] in
  let s0 := traffic_stats_reset_peak s true in
  let envs := [tick_at 3000 200 700 []] in
  g_initialized s = true ∧
  rx_speed (g_stats s) = 2000 ∧ peak_rx_speed (g_stats s0) = 0 ∧
  ¬ speed_guard (prev_rx_bytes s0) (read_totals (traffic (tick_at 3000 200 700 []))).1 ∧
  computed_speeds true s0 envs = [] ∧
  peak_rx_speed (g_stats (run_ticks s0 envs)) = 2000 ∧
  peak_rx_speed (g_stats (run_ticks s0 envs)) ≠ max_speed (computed_speeds true s0 envs).
Proof.
  intros s s0 envs.
  assert (Hpeak : peak_rx_speed (g_stats (run_ticks s0 envs)) = 2000)
    by (vm_compute; reflexivity).
  assert (Hnone : computed_speeds true s0 envs = []) by (vm_compute; reflexivity).
  split_and!; try (vm_compute; reflexivity); [| by rewrite Hpeak, Hnone].
  intros [_ Hle]. vm_compute in Hle. by apply Hle.
Qed.

(** C4, as the code has it.  After [reset_peak()] and then any number of
    ticks, each peak field is the largest value its speed field had after the
    committed ticks among them (0 when there was none); a tick that skips the
    speed computation contributes the speed value it keeps, which may have
    been computed before the peak reset. *)
Theorem peak_is_max_since_reset s envs :
  g_initialized s = true →
  let s0 := traffic_stats_reset_peak s true in
  peak_rx_speed (g_stats (run_ticks s0 envs)) = max_speed (speed_samples rx_speed s0 envs) ∧
  peak_tx_speed (g_stats (run_ticks s0 envs)) = max_speed (speed_samples tx_speed s0 envs).
Proof.
  intros Hi s0.
  assert (Hr : peak_rx_speed (g_stats s0) = 0 ∧ peak_tx_speed (g_stats s0) = 0).
  { subst s0. unfold traffic_stats_reset_peak. by rewrite Hi. }
  destruct Hr as [Hr Ht].
  destruct (peaks_over_ticks envs s0) as [Hprx Hptx]; [lia | lia |].
  rewrite Hprx, Hptx, Hr, Ht.
  pose proof (max_speed_nonneg (speed_samples rx_speed s0 envs)).
  pose proof (max_speed_nonneg (speed_samples tx_speed s0 envs)).
  lia.
Qed.

(** Speeds 2000, 500 and (after a counter regression, kept) 500 since the
    peak reset: the peak is 2000. *)
Lemma peak_is_max_since_reset_witness :
  let s := traffic_stats_update init_state (tick_at 1000 1000 700 []) in
  let s0 := traffic_stats_reset_peak s true in
  let envs := [tick_at 2000 3000 700 []; tick_timeout 2500 3100 700 [];
               tick_at 3000 3500 800 []; tick_at 4000 200 900 []] in
  g_initialized s = true ∧
  speed_samples rx_speed s0 envs = [2000; 500; 500] ∧
  peak_rx_speed (g_stats (run_ticks s0 envs)) = 2000 ∧
  peak_tx_speed (g_stats (run_ticks s0 envs)) = 100.
Proof.
  intros s s0 envs.
  destruct (peak_is_max_since_reset s envs eq_refl) as [Hrx Htx].
  fold s0 in Hrx, Htx.
  split_and!; [reflexivity | reflexivity | |].
  - rewrite Hrx. reflexivity.
  - rewrite Htx. reflexivity.
Defined.

(** ** Lock timeouts *)

(** C5.  When the lock is not obtained within the timeout, the update tick
    returns with every static as before the call, the snapshot reader leaves
    the caller's buffer as it was, the client reader writes nothing and
    returns a count of 0, and the two resets change nothing; none of them has
    a result that reports the timeout. *)
Theorem lock_timeout_changes_nothing s e :
  g_initialized s = true → lock_taken e = false →
  traffic_stats_update s e = s ∧
  (∀ stats, traffic_stats_get s false stats = stats) ∧
  (∀ clients_given max_clients,
     traffic_stats_get_clients s false clients_given max_clients = ([], 0)) ∧
  (∀ timer_now, traffic_stats_reset s false timer_now = s) ∧
  traffic_stats_reset_peak s false = s.
Proof.
  intros Hi Hl. split_and!.
  - apply update_abandoned. unfold committed. by rewrite Hi, Hl.
  - intros [buf|]; unfold traffic_stats_get; [by rewrite Hi | done].
  - intros given max. unfold traffic_stats_get_clients. rewrite Hi. simpl.
    by destruct (negb given || (max <=? 0)).
  - intros t. unfold traffic_stats_reset. by rewrite Hi.
  - unfold traffic_stats_reset_peak. by rewrite Hi.
Qed.

Lemma lock_timeout_changes_nothing_witness :
  let s := traffic_stats_update init_state (tick_at 1000 1000 700 [station x01]) in
  let buf := TrafficStats 1 2 3 4 5 6 7 in
  traffic_stats_update s (tick_timeout 2000 9000 9000 [station x02]) = s ∧
  traffic_stats_get s false (Some buf) = Some buf ∧
  traffic_stats_get_clients s false true 16 = ([], 0).
Proof.
  intros s buf.
  destruct (lock_timeout_changes_nothing s
              (tick_timeout 2000 9000 9000 [station x02]) eq_refl eq_refl)
    as (Hu & Hg & Hc & _).
  split_and!; [exact Hu | apply Hg | apply Hc].
Defined.

(** ** Full reset *)

(** C7.  A [reset()] that runs (initialised, lock obtained) zeroes the byte
    counters, the speeds and the peaks, sets [start_time] to the current
    time, and leaves the client table as it was. *)
Theorem reset_zeroes_stats_keeps_clients s timer_now :
  g_initialized s = true →
  let s' := traffic_stats_reset s true timer_now in
  rx_bytes (g_stats s') = 0 ∧ tx_bytes (g_stats s') = 0 ∧
  rx_speed (g_stats s') = 0 ∧ tx_speed (g_stats s') = 0 ∧
  peak_rx_speed (g_stats s') = 0 ∧ peak_tx_speed (g_stats s') = 0 ∧
  g_start_time s' = get_time_ms timer_now ∧
  g_clients s' = g_clients s.
Proof.
  intros Hi. unfold traffic_stats_reset. rewrite Hi. simpl. done.
Qed.

Lemma reset_zeroes_stats_keeps_clients_witness :
  let s := run_ticks init_state
             [tick_at 1000 1000 700 [station x01]; tick_at 2000 3000 900 [station x01]] in
  let s' := traffic_stats_reset s true 5000000 in
  rx_bytes (g_stats s) = 3000 ∧ rx_bytes (g_stats s') = 0 ∧
  peak_rx_speed (g_stats s) = 2000 ∧ peak_rx_speed (g_stats s') = 0 ∧
  g_start_time s' = 5000 ∧
  active_macs (g_clients s') = [sta_mac (station x01)].
Proof.
  intros s s'.
  destruct (reset_zeroes_stats_keeps_clients s 5000000 eq_refl)
    as (Hrx & _ & _ & _ & Hpk & _ & Hst & Hcl).
  fold s' in Hrx, Hpk, Hst, Hcl.
  split_and!; [reflexivity | exact Hrx | reflexivity | exact Hpk | |].
  - rewrite Hst. reflexivity.
  - rewrite Hcl. reflexivity.
Defined.

(** ** Cumulative counters *)

Lemma snapshot_initialized s : g_initialized s = true → snapshot s = g_stats s.
Proof. intros Hi. unfold snapshot, traffic_stats_get. by rewrite Hi. Qed.

Lemma reports_nonneg calls :
  Forall (Z.le 0) (fst <$> reports calls) ∧ Forall (Z.le 0) (snd <$> reports calls).
Proof.
  induction calls as [|c calls [IH1 IH2]]; [by split; constructor |].
  unfold reports in *. destruct c as [m t cr sr| |e|l t|l]; simpl; try done.
  destruct (lock_taken e); simpl; [|done].
  destruct (read_totals_range (traffic e)) as [Hr Ht].
  split; constructor; (lia || done).
Qed.

Lemma sorted_from_zero l :
  Forall (Z.le 0) l → StronglySorted Z.le l → StronglySorted Z.le (0 :: l).
Proof. intros Hf Hs. by constructor. Qed.

Lemma reports_update e rest :
  reports (CallUpdate e :: rest)
  = if lock_taken e then read_totals (traffic e) :: reports rest else reports rest.
Proof. unfold reports. simpl. by destruct (lock_taken e). Qed.

Lemma reports_reset l t rest : reports (CallReset l t :: rest) = reports rest.
Proof. reflexivity. Qed.

Lemma reports_reset_peak l rest : reports (CallResetPeak l :: rest) = reports rest.
Proof. reflexivity. Qed.

(** One call of a sequence whose reports do not decrease. *)
Lemma counters_step s c rest :
  g_initialized s = true → tick_or_reset c →
  StronglySorted Z.le (rx_bytes (g_stats s) :: (fst <$> reports (c :: rest))) →
  StronglySorted Z.le (tx_bytes (g_stats s) :: (snd <$> reports (c :: rest))) →
  let s' := api_step s c in
  (g_initialized s' = true ∧
   StronglySorted Z.le (rx_bytes (g_stats s') :: (fst <$> reports rest)) ∧
   StronglySorted Z.le (tx_bytes (g_stats s') :: (snd <$> reports rest))) ∧
  (∀ e, c = CallUpdate e → lock_taken e = true →
     rx_bytes (g_stats s') = (read_totals (traffic e)).1 ∧
     tx_bytes (g_stats s') = (read_totals (traffic e)).2) ∧
  (∀ e, c = CallUpdate e → lock_taken e = false → s' = s) ∧
  (rx_bytes (g_stats s') < rx_bytes (g_stats s) ∨
   tx_bytes (g_stats s') < tx_bytes (g_stats s) → ∃ t, c = CallReset true t).
Proof.
  intros Hi Hc Hrx Htx. cbv zeta.
  destruct (reports_nonneg rest) as [Hnr Hnt].
  destruct c as [m t cr sr| |e|l t|l]; simpl in Hc; try done; simpl api_step.
  - rewrite reports_update in Hrx, Htx. destruct (lock_taken e) eqn:Hl.
    + rewrite (update_committed s e Hi Hl). simpl.
      rewrite fmap_cons in Hrx, Htx.
      apply StronglySorted_inv in Hrx as [Hrx Hrx0].
      apply StronglySorted_inv in Htx as [Htx Htx0].
      apply Forall_inv in Hrx0. apply Forall_inv in Htx0.
      split_and!; try done.
      * intros e0 [= <-] _. done.
      * intros e0 [= <-] ?. congruence.
      * intros [?|?]; lia.
    + rewrite update_abandoned by (unfold committed; by rewrite Hi, Hl).
      split_and!; try done.
      * intros e0 [= <-] ?. congruence.
      * intros [?|?]; lia.
  - unfold traffic_stats_reset. rewrite Hi.
    rewrite reports_reset in Hrx, Htx.
    apply StronglySorted_inv in Hrx as [Hrx Hrx0].
    apply StronglySorted_inv in Htx as [Htx Htx0].
    destruct l; simpl.
    + split_and!; try done; [by apply sorted_from_zero .. | eauto].
    + split_and!; try done; [by constructor .. | intros [?|?]; lia].
  - unfold traffic_stats_reset_peak. rewrite Hi.
    rewrite reports_reset_peak in Hrx, Htx. destruct l; simpl;
      (split_and!; try done; intros [?|?]; lia).
Qed.

(** C6.  Take an initialised module and any sequence of ticks and resets in
    which the totals handed to the committed ticks, preceded by the counters
    the sequence starts from, do not decrease.  At every call of the
    sequence: a committed tick leaves [rx_bytes] and [tx_bytes] of the
    snapshot equal to the totals it was handed, an abandoned tick leaves the
    snapshot as it was, and a counter of the snapshot is smaller after the
    call than before only when the call is a [reset()] that got the lock. *)
Theorem counters_follow_reports s calls :
  g_initialized s = true → Forall tick_or_reset calls →
  StronglySorted Z.le (rx_bytes (snapshot s) :: (fst <$> reports calls)) →
  StronglySorted Z.le (tx_bytes (snapshot s) :: (snd <$> reports calls)) →
  ∀ pre c post, calls = pre ++ c :: post →
    let s1 := run_calls s pre in
    let s2 := api_step s1 c in
    (∀ e, c = CallUpdate e → lock_taken e = true →
       rx_bytes (snapshot s2) = (read_totals (traffic e)).1 ∧
       tx_bytes (snapshot s2) = (read_totals (traffic e)).2) ∧
    (∀ e, c = CallUpdate e → lock_taken e = false → snapshot s2 = snapshot s1) ∧
    (rx_bytes (snapshot s2) < rx_bytes (snapshot s1) ∨
     tx_bytes (snapshot s2) < tx_bytes (snapshot s1) → ∃ t, c = CallReset true t).
Proof.
  intros Hi Hall Hrx Htx pre. revert s calls Hi Hall Hrx Htx.
  induction pre as [|c0 pre IH]; intros s calls Hi Hall Hrx Htx c post ->.
  - simpl. rewrite (snapshot_initialized s Hi) in *.
    apply Forall_cons in Hall as [Hc _].
    destruct (counters_step s c post Hi Hc Hrx Htx) as ((Hi' & _) & H1 & H2 & H3).
    cbv zeta in *. rewrite (snapshot_initialized _ Hi').
    split_and!; [done | | done].
    intros e He Hl. by rewrite (H2 e He Hl).
  - simpl in Hall. apply Forall_cons in Hall as [Hc0 Hall].
    rewrite (snapshot_initialized s Hi) in *.
    destruct (counters_step s c0 (pre ++ c :: post) Hi Hc0 Hrx Htx)
      as ((Hi' & Hrx' & Htx') & _).
    cbv zeta in *.
    rewrite <- (snapshot_initialized _ Hi') in Hrx', Htx'.
    exact (IH (api_step s c0) (pre ++ c :: post) Hi' Hall Hrx' Htx' c post eq_refl).
Qed.

(** Totals 1000, 3000, 3000 with one abandoned tick and one reset between
    them: the third call sets the counters to 3000 and only the reset lowers
    them. *)
Lemma counters_follow_reports_witness :
  let calls := [CallUpdate (tick_at 1000 1000 500 []);
                CallUpdate (tick_timeout 1500 2000 700 []);
                CallUpdate (tick_at 2000 3000 900 []);
                CallReset true 2500000;
                CallUpdate (tick_at 3000 3000 900 [])] in
  reports calls = [(1000, 500); (3000, 900); (3000, 900)] ∧
  rx_bytes (snapshot (run_calls init_state (take 3 calls))) = 3000 ∧
  tx_bytes (snapshot (run_calls init_state (take 3 calls))) = 900 ∧
  rx_bytes (snapshot (run_calls init_state (take 4 calls))) = 0.
Proof.
  intros calls.
  assert (Hall : Forall tick_or_reset calls) by (repeat constructor).
  assert (Hrx : StronglySorted Z.le
                  (rx_bytes (snapshot init_state) :: (fst <$> reports calls))).
  { vm_compute. repeat first [constructor | discriminate]. }
  assert (Htx : StronglySorted Z.le
                  (tx_bytes (snapshot init_state) :: (snd <$> reports calls))).
  { vm_compute. repeat first [constructor | discriminate]. }
  pose proof (counters_follow_reports init_state calls eq_refl Hall Hrx Htx
                (take 2 calls) (CallUpdate (tick_at 2000 3000 900 []))
                (drop 3 calls) eq_refl) as (H & _ & _).
  destruct (H _ eq_refl eq_refl) as [H1 H2].
  split_and!; [reflexivity | exact H1 | exact H2 | reflexivity].
Defined.

(** ** Reading the client table *)

Lemma copy_active_spec g max_clients : ∀ out count,
  copy_active g max_clients out count
  = (out ++ take (Z.to_nat (max_clients - count)) (filter is_active g),
     count + Z.of_nat (length (take (Z.to_nat (max_clients - count))
                                    (filter is_active g)))).
Proof.
  induction g as [|c g IH]; intros out count; cbn [copy_active].
  - rewrite filter_nil, take_nil, app_nil_r. simpl. f_equal. lia.
  - destruct (Z.ltb_spec count max_clients) as [Hlt|Hge].
    + destruct (active c) eqn:Ha.
      * rewrite IH, filter_cons_True by done.
        replace (Z.to_nat (max_clients - count))
          with (S (Z.to_nat (max_clients - (count + 1)))) by lia.
        simpl. rewrite <- app_assoc. simpl. f_equal. lia.
      * rewrite IH, filter_cons_False; [done |].
        unfold is_active. congruence.
    + replace (Z.to_nat (max_clients - count)) with 0%nat by lia.
      rewrite take_0, app_nil_r. simpl. f_equal. lia.
Qed.

Lemma get_clients_run s max_clients :
  g_initialized s = true →
  (traffic_stats_get_clients s true true max_clients).1
  = take (Z.to_nat max_clients) (filter is_active (g_clients s)).
Proof.
  intros Hi. unfold traffic_stats_get_clients. rewrite Hi. simpl.
  destruct (Z.leb_spec max_clients 0).
  - replace (Z.to_nat max_clients) with 0%nat by lia. by rewrite take_0.
  - rewrite copy_active_spec. simpl. by rewrite Z.sub_0_r.
Qed.

Lemma get_clients_cases s lock clients_given max_clients :
  traffic_stats_get_clients s lock clients_given max_clients
    = (take (Z.to_nat max_clients) (filter is_active (g_clients s)),
       Z.of_nat (length (take (Z.to_nat max_clients)
                              (filter is_active (g_clients s)))))
  ∨ (traffic_stats_get_clients s lock clients_given max_clients = ([], 0)
     ∧ (g_initialized s = true → clients_given = true → lock = true →
        max_clients ≤ 0)).
Proof.
  unfold traffic_stats_get_clients.
  destruct (g_initialized s), clients_given, (Z.leb_spec max_clients 0), lock;
    simpl; try (right; split; [done | intros; (done || lia)]).
  left. rewrite copy_active_spec. simpl. by rewrite Z.sub_0_r.
Qed.

Lemma get_clients_prefix s lock clients_given max_clients :
  (traffic_stats_get_clients s lock clients_given max_clients).1
    `prefix_of` filter is_active (g_clients s).
Proof.
  destruct (get_clients_cases s lock clients_given max_clients) as [-> | [-> _]];
    simpl; [apply prefix_take | apply prefix_nil].
Qed.

(** C8.  For every state and every [max >= 0], whatever the lock outcome:
    the returned count is the number of records written, it is at most
    [max], every record written has [active == true], and the records are an
    initial part of the active records of the table in table order; when the
    call runs (initialised, array given, lock obtained) they are exactly the
    first [max] active records. *)
Theorem get_clients_active_in_order s lock clients_given max_clients :
  0 ≤ max_clients →
  let r := traffic_stats_get_clients s lock clients_given max_clients in
  r.2 = Z.of_nat (length r.1) ∧
  Z.of_nat (length r.1) ≤ max_clients ∧
  Forall (λ c, active c = true) r.1 ∧
  r.1 `prefix_of` filter is_active (g_clients s) ∧
  (g_initialized s = true → clients_given = true → lock = true →
   r.1 = take (Z.to_nat max_clients) (filter is_active (g_clients s))).
Proof.
  intros Hmax. cbv zeta.
  assert (Hact : Forall (λ c, active c = true) (filter is_active (g_clients s))).
  { apply Forall_forall. by intros c [Hc _]%list_elem_of_filter. }
  destruct (get_clients_cases s lock clients_given max_clients)
    as [-> | [-> Hzero]]; simpl.
  - split_and!; [done | | by apply Forall_take | apply prefix_take | done].
    rewrite length_take. lia.
  - split_and!; [done | lia | constructor | apply prefix_nil |].
    intros H1 H2 H3. specialize (Hzero H1 H2 H3).
    replace (Z.to_nat max_clients) with 0%nat by lia. by rewrite take_0.
Qed.

(** Two active records among three used slots, read with room for one and
    for sixteen. *)
Lemma get_clients_active_in_order_witness :
  let s := run_ticks init_state
             [tick_at 1000 0 0 [station x01; station x02; station x03];
              tick_at 2000 0 0 [station x03; station x01]] in
  mac <$> (traffic_stats_get_clients s true true 16).1
    = [sta_mac (station x01); sta_mac (station x03)] ∧
  mac <$> (traffic_stats_get_clients s true true 1).1 = [sta_mac (station x01)] ∧
  (traffic_stats_get_clients s true true 1).2 = 1.
Proof.
  intros s.
  destruct (get_clients_active_in_order s true true 1 ltac:(lia))
    as (Hcount & _ & _ & _ & Hrun).
  split_and!; [reflexivity | |].
  - rewrite (Hrun eq_refl eq_refl eq_refl). reflexivity.
  - rewrite Hcount, (Hrun eq_refl eq_refl eq_refl). reflexivity.
Defined.

(** ** Calls on a module that is not initialised *)

(** C10.  While [g_initialized] is false (before a successful init, after
    deinit): [traffic_stats_get] zeroes a given buffer and accepts [NULL],
    [traffic_stats_get_clients] writes nothing and returns 0, and update,
    reset and reset_peak return the statics unchanged.  In any state
    [traffic_stats_get_clients] also returns 0 when the array is [NULL] or
    [max_clients <= 0]. *)
Theorem uninitialized_calls_do_nothing s :
  g_initialized s = false →
  (∀ lock buf, traffic_stats_get s lock (Some buf) = Some zero_stats) ∧
  (∀ lock, traffic_stats_get s lock None = None) ∧
  (∀ lock clients_given max_clients,
     traffic_stats_get_clients s lock clients_given max_clients = ([], 0)) ∧
  (∀ s0 lock clients_given max_clients,
     clients_given = false ∨ max_clients ≤ 0 →
     traffic_stats_get_clients s0 lock clients_given max_clients = ([], 0)) ∧
  (∀ e, traffic_stats_update s e = s) ∧
  (∀ lock timer_now, traffic_stats_reset s lock timer_now = s) ∧
  (∀ lock, traffic_stats_reset_peak s lock = s) ∧
  g_initialized boot_state = false ∧
  (∀ s0, g_initialized (traffic_stats_deinit s0) = false).
Proof.
  intros Hi. split_and!.
  - intros lock buf. unfold traffic_stats_get. by rewrite Hi.
  - done.
  - intros lock given max. unfold traffic_stats_get_clients. by rewrite Hi.
  - intros s0 lock given max Hor. unfold traffic_stats_get_clients.
    destruct (g_initialized s0); simpl; [|done].
    destruct Hor as [->|Hmax]; simpl; [done |].
    destruct (Z.leb_spec max 0); [|lia]. by rewrite orb_true_r.
  - intros e. unfold traffic_stats_update. by rewrite Hi.
  - intros lock t. unfold traffic_stats_reset. by rewrite Hi.
  - intros lock. unfold traffic_stats_reset_peak. by rewrite Hi.
  - done.
  - intros s0. unfold traffic_stats_deinit. by destruct (g_initialized s0) eqn:E.
Qed.

(** After deinit of a module that has seen traffic and a station. *)
Lemma uninitialized_calls_do_nothing_witness :
  let s := traffic_stats_deinit
             (traffic_stats_update init_state (tick_at 1000 1000 500 [station x01])) in
  traffic_stats_get s true (Some (TrafficStats 1 2 3 4 5 6 7)) = Some zero_stats ∧
  traffic_stats_get_clients s true true 16 = ([], 0) ∧
  traffic_stats_update s (tick_at 2000 3000 900 [station x02]) = s ∧
  traffic_stats_reset s true 0 = s.
Proof.
  intros s.
  destruct (uninitialized_calls_do_nothing s eq_refl)
    as (Hg & _ & Hc & _ & Hu & Hr & _).
  split_and!; [apply Hg | apply Hc | apply Hu | apply Hr].
Defined.

(** ** More stations than slots *)

Lemma scan_from_skip p (l1 l2 : list client_stats_t) j :
  (∀ c, c ∈ l1 → p c = false) →
  scan_from p (l1 ++ l2) j = scan_from p l2 (j + length l1)%nat.
Proof.
  revert j. induction l1 as [|c l1 IH]; intros j Hall; simpl.
  - f_equal. lia.
  - rewrite (Hall c) by apply list_elem_of_here.
    rewrite IH by (intros c' Hc'; apply Hall; by apply list_elem_of_further).
    f_equal. lia.
Qed.

Lemma scan_from_replicate_miss p n c j :
  p c = false → scan_from p (replicate n c) j = None.
Proof.
  intros Hp. apply scan_from_None. intros i c' Hl.
  apply lookup_replicate_1 in Hl as [-> _]. done.
Qed.

Lemma find_slot_fresh now pre n m :
  m ∉ sta_mac <$> pre →
  find_slot ((new_record now <$> pre) ++ replicate (S n) zero_client) m
  = Some (length pre).
Proof.
  intros Hm. unfold find_slot, find_mac_slot, find_empty_slot.
  rewrite !scan_from_skip, length_fmap; simpl.
  - destruct (slot_has_mac m zero_client) eqn:Hz; [done |].
    by rewrite scan_from_replicate_miss.
  - by intros c (sta & -> & _)%list_elem_of_fmap.
  - intros c (sta & -> & Hin)%list_elem_of_fmap. apply slot_has_mac_false.
    simpl. intros <-. apply Hm. by apply list_elem_of_fmap_2.
Qed.

Lemma fill_fresh now l : ∀ pre n,
  NoDup (sta_mac <$> (pre ++ l)) → (length l ≤ n)%nat →
  foldl (assign_client now) ((new_record now <$> pre) ++ replicate n zero_client) l
  = (new_record now <$> (pre ++ l)) ++ replicate (n - length l) zero_client.
Proof.
  induction l as [|sta l IH]; intros pre n Hnd Hlen; simpl.
  - by rewrite app_nil_r, Nat.sub_0_r.
  - destruct n as [|n]; simpl in Hlen; [lia |].
    assert (Hfresh : sta_mac sta ∉ sta_mac <$> pre).
    { rewrite fmap_app, fmap_cons in Hnd.
      apply NoDup_app in Hnd as (_ & Hdis & _). intros Hin.
      apply (Hdis _ Hin). apply list_elem_of_here. }
    unfold assign_client at 2. rewrite (find_slot_fresh now pre n _ Hfresh).
    replace (length pre) with (length (new_record now <$> pre) + 0)%nat
      by (rewrite length_fmap; lia).
    rewrite alter_app_r. simpl.
    change (store_client sta now zero_client :: replicate n zero_client)
      with ((new_record now <$> [sta]) ++ replicate n zero_client).
    rewrite app_assoc, <- (fmap_app (new_record now) pre [sta]).
    rewrite IH; [|by rewrite <- app_assoc | lia].
    by rewrite <- app_assoc.
Qed.

Lemma update_clients_fresh reported now :
  NoDup (sta_mac <$> reported) →
  update_clients zero_clients reported now
  = (new_record now <$> take MAX_CLIENTS reported)
    ++ replicate (MAX_CLIENTS - length (take MAX_CLIENTS reported)) zero_client.
Proof.
  intros Hnd. unfold update_clients.
  change (deactivate <$> zero_clients)
    with ((new_record now <$> []) ++ replicate MAX_CLIENTS zero_client).
  rewrite fill_fresh; [done | | rewrite length_take; lia].
  rewrite app_nil_l, fmap_take.
  eapply sublist_NoDup; [exact Hnd | apply sublist_take].
Qed.

Lemma filter_new_records now (l : list sta_entry) :
  filter is_active (new_record now <$> l) = new_record now <$> l.
Proof.
  induction l as [|sta l IH]; [done |].
  rewrite fmap_cons, filter_cons_True by done. by rewrite IH.
Qed.

Lemma new_record_macs now (l : list sta_entry) : mac <$> (new_record now <$> l) = sta_mac <$> l.
Proof. rewrite <- list_fmap_compose. by apply list_fmap_ext. Qed.

(** C9.  Twenty stations with pairwise different addresses are reported in
    one tick to an initialised module whose table is still zeroed.  After
    the tick the table holds the first sixteen of them in reported order, all
    active; [traffic_stats_get_clients] returns those sixteen (cut at its
    [max_clients]) and never a record with the address of one of the last
    four; the tick returns normally with the new state. *)
Theorem overflow_keeps_first_sixteen s e reported :
  g_initialized s = true → g_clients s = zero_clients →
  lock_taken e = true → sta_list e = Some reported →
  length reported = 20%nat → NoDup (sta_mac <$> reported) →
  let s' := traffic_stats_update s e in
  let now := get_time_ms (timer_us e) in
  g_clients s' = new_record now <$> take 16 reported ∧
  length (filter is_active (g_clients s')) = 16%nat ∧
  (∀ max_clients,
     (traffic_stats_get_clients s' true true max_clients).1
     = take (Z.to_nat max_clients) (new_record now <$> take 16 reported)) ∧
  (∀ sta lock clients_given max_clients,
     sta ∈ drop 16 reported →
     sta_mac sta ∉ mac <$> (traffic_stats_get_clients s' lock clients_given max_clients).1).
Proof.
  intros Hi Hz Hl Hsta Hlen Hnd. cbv zeta.
  set (now := get_time_ms (timer_us e)).
  assert (Hi' : g_initialized (traffic_stats_update s e) = true).
  { by rewrite (update_committed s e Hi Hl). }
  assert (Htab : g_clients (traffic_stats_update s e)
                 = new_record now <$> take 16 reported).
  { rewrite (update_committed s e Hi Hl). simpl. rewrite Hsta, Hz.
    rewrite (update_clients_fresh reported _ Hnd).
    change MAX_CLIENTS with 16%nat. rewrite length_take, Hlen. simpl.
    by rewrite app_nil_r. }
  assert (Hact : filter is_active (g_clients (traffic_stats_update s e))
                 = new_record now <$> take 16 reported).
  { by rewrite Htab, filter_new_records. }
  split_and!.
  - exact Htab.
  - rewrite Hact, length_fmap, length_take, Hlen. reflexivity.
  - intros max. by rewrite (get_clients_run _ _ Hi'), Hact.
  - intros sta lock given max Hdrop Hin.
    pose proof (get_clients_prefix (traffic_stats_update s e) lock given max) as Hpre.
    rewrite Hact in Hpre.
    assert (Hin' : sta_mac sta ∈ sta_mac <$> take 16 reported).
    { rewrite <- (new_record_macs now).
      destruct Hpre as [k ->]. rewrite fmap_app. apply elem_of_app. by left. }
    rewrite <- (take_drop 16 reported), fmap_app in Hnd.
    apply NoDup_app in Hnd as (_ & Hdis & _).
    apply (Hdis _ Hin'). by apply list_elem_of_fmap_2.
Qed.

(** Stations [AA:BB:CC:DD:EE:01] to [..:14] against the table of a fresh
    init: the sixteen records returned are stations 01 to 10 (hexadecimal),
    and station 11 is not among them. *)
Lemma overflow_keeps_first_sixteen_witness :
  let s' := traffic_stats_update init_state (tick_at 1000 0 0 twenty_stations) in
  mac <$> (traffic_stats_get_clients s' true true 20).1
    = sta_mac <$> take 16 twenty_stations ∧
  length (filter is_active (g_clients s')) = 16%nat ∧
  sta_mac (station x11) ∉ mac <$> (traffic_stats_get_clients s' true true 20).1.
Proof.
  intros s'.
  assert (Hnd : NoDup (sta_mac <$> twenty_stations)).
  { refine (bool_decide_unpack (NoDup (sta_mac <$> twenty_stations)) _).
    vm_compute. exact I. }
  destruct (overflow_keeps_first_sixteen init_state (tick_at 1000 0 0 twenty_stations)
              twenty_stations eq_refl eq_refl eq_refl eq_refl eq_refl Hnd)
    as (_ & Hcount & Hget & Hdropped).
  split_and!.
  - fold s' in Hget. rewrite Hget. reflexivity.
  - exact Hcount.
  - apply Hdropped. vm_compute. apply list_elem_of_here.
Defined.

(** * Further properties of the statistics module *)

(** ** Initialisation *)


(** X1.  [traffic_stats_init] returns [ESP_OK] exactly when the module is
    initialised afterwards; a call on an initialised module, or one whose
    mutex cannot be created, leaves every static as it was, the latter with
    [ESP_ERR_NO_MEM]; a failing timer call returns the timer's own error
    code. *)
Theorem init_ok_iff_initialized s mutex_created timer_now create_ret start_ret :
  let r := traffic_stats_init s mutex_created timer_now create_ret start_ret in
  (r.2 = ESP_OK ↔ g_initialized r.1 = true) ∧
  (g_initialized s = true ∨ mutex_created = false → r.1 = s) ∧
  (g_initialized s = false ∧ mutex_created = false → r.2 = ESP_ERR_NO_MEM) ∧
  (g_initialized s = false ∧ mutex_created = true ∧ create_ret ≠ ESP_OK →
   r.2 = create_ret) ∧
  (g_initialized s = false ∧ mutex_created = true ∧ create_ret = ESP_OK ∧
   start_ret ≠ ESP_OK → r.2 = start_ret).
Proof.
  cbv zeta. unfold traffic_stats_init.
  destruct (g_initialized s) eqn:Hi; simpl.
  { rewrite Hi. split_and!; try done; intros; intuition congruence. }
  destruct mutex_created; simpl.
  - destruct (Z.eqb_spec create_ret ESP_OK) as [Hc|Hc]; simpl.
    + destruct (Z.eqb_spec start_ret ESP_OK) as [Hs|Hs]; simpl;
        split_and!; try done; intros; intuition congruence.
    + split_and!; try done; intros; intuition congruence.
  - rewrite Hi. split_and!; try done; intros; intuition (try congruence).
Qed.

(** ** The startup guard *)

Lemma update_no_baseline s e :
  g_initialized s = true → lock_taken e = true →
  prev_rx_bytes s = 0 → prev_tx_bytes s = 0 →
  rx_speed (g_stats (traffic_stats_update s e)) = rx_speed (g_stats s) ∧
  tx_speed (g_stats (traffic_stats_update s e)) = tx_speed (g_stats s) ∧
  rx_bytes (g_stats (traffic_stats_update s e)) = (read_totals (traffic e)).1 ∧
  tx_bytes (g_stats (traffic_stats_update s e)) = (read_totals (traffic e)).2.
Proof.
  intros Hi Hl Hr Ht. rewrite (update_committed s e Hi Hl). simpl.
  rewrite Hr, Ht. unfold compute_speed. simpl. done.
Qed.

(** X2.  The first tick after a [reset()], and the first tick after the
    first successful init, never computes a speed: whatever the counters and
    the clock, both speeds and both peaks are 0 after it, and the byte
    counters hold the totals of that tick. *)
Theorem first_tick_reports_no_speed s e timer_now :
  lock_taken e = true →
  let after_reset := traffic_stats_update (traffic_stats_reset s true timer_now) e in
  let after_init :=
    traffic_stats_update (traffic_stats_init boot_state true timer_now ESP_OK ESP_OK).1 e in
  (g_initialized s = true →
   rx_speed (g_stats after_reset) = 0 ∧ tx_speed (g_stats after_reset) = 0 ∧
   peak_rx_speed (g_stats after_reset) = 0 ∧ peak_tx_speed (g_stats after_reset) = 0 ∧
   rx_bytes (g_stats after_reset) = (read_totals (traffic e)).1 ∧
   tx_bytes (g_stats after_reset) = (read_totals (traffic e)).2) ∧
  (rx_speed (g_stats after_init) = 0 ∧ tx_speed (g_stats after_init) = 0 ∧
   peak_rx_speed (g_stats after_init) = 0 ∧ peak_tx_speed (g_stats after_init) = 0 ∧
   rx_bytes (g_stats after_init) = (read_totals (traffic e)).1 ∧
   tx_bytes (g_stats after_init) = (read_totals (traffic e)).2).
Proof.
  intros Hl. cbv zeta. split.
  - intros Hi.
    set (s1 := traffic_stats_reset s true timer_now).
    assert (Hs1 : s1 = State zero_stats (g_clients s) (get_time_ms timer_now) true
                             0 0 (prev_update_time s)).
    { subst s1. unfold traffic_stats_reset. by rewrite Hi. }
    destruct (update_no_baseline s1 e) as (Hr & Ht & Hb & Hc);
      try (rewrite Hs1; reflexivity); [done |].
    destruct (update_peaks s1 e) as [Hpr Hpt]. cbv zeta in Hpr, Hpt.
    assert (Hc1 : committed s1 e = true).
    { unfold committed. rewrite Hl, Hs1. reflexivity. }
    rewrite Hc1, Hr in Hpr. rewrite Hc1, Ht in Hpt.
    rewrite Hr, Ht, Hpr, Hpt, Hb, Hc, Hs1. simpl. done.
  - set (s1 := (traffic_stats_init boot_state true timer_now ESP_OK ESP_OK).1).
    assert (Hs1 : s1 = State zero_stats zero_clients (get_time_ms timer_now) true
                             0 0 (get_time_ms timer_now)) by reflexivity.
    destruct (update_no_baseline s1 e) as (Hr & Ht & Hb & Hc);
      try (rewrite Hs1; reflexivity); [done |].
    destruct (update_peaks s1 e) as [Hpr Hpt]. cbv zeta in Hpr, Hpt.
    assert (Hc1 : committed s1 e = true).
    { unfold committed. rewrite Hl, Hs1. reflexivity. }
    rewrite Hc1, Hr in Hpr. rewrite Hc1, Ht in Hpt.
    rewrite Hr, Ht, Hpr, Hpt, Hb, Hc, Hs1. simpl. done.
Qed.

Lemma first_tick_reports_no_speed_witness :
  let s := run_ticks init_state [tick_at 1000 1000 500 []; tick_at 2000 4000 900 []] in
  let s' := traffic_stats_update (traffic_stats_reset s true 2500000)
                                 (tick_at 3000 9000 1900 []) in
  rx_speed (g_stats s) = 3000 ∧
  rx_speed (g_stats s') = 0 ∧ peak_rx_speed (g_stats s') = 0 ∧
  rx_bytes (g_stats s') = 9000.
Proof.
  intros s s'.
  destruct (first_tick_reports_no_speed s (tick_at 3000 9000 1900 []) 2500000 eq_refl)
    as [H _].
  destruct (H eq_refl) as (Hr & _ & Hp & _ & Hb & _).
  split_and!; [reflexivity | exact Hr | exact Hp | exact Hb].
Defined.

(** X3.  [traffic_stats_init] does not clear the byte baselines.  After a
    deinit and a new successful init the statistics and the table are zero,
    but [prev_rx_bytes] and [prev_tx_bytes] are those of the last tick before
    the deinit, so the first tick after the new init computes a speed
    against them, over the time since the new init. *)
Theorem reinit_keeps_byte_baseline s e timer_now :
  g_initialized s = true → lock_taken e = true →
  let s1 := (traffic_stats_init (traffic_stats_deinit s) true timer_now ESP_OK ESP_OK).1 in
  let s2 := traffic_stats_update s1 e in
  let total_rx := (read_totals (traffic e)).1 in
  let time_diff := Z.max 1 (wrap32 (get_time_ms (timer_us e) - get_time_ms timer_now)) in
  g_initialized s1 = true ∧ g_stats s1 = zero_stats ∧ g_clients s1 = zero_clients ∧
  prev_rx_bytes s1 = prev_rx_bytes s ∧ prev_tx_bytes s1 = prev_tx_bytes s ∧
  (speed_guard (prev_rx_bytes s) total_rx →
   rx_speed (g_stats s2)
   = wrap32 (wrap64 ((total_rx - prev_rx_bytes s) * 1000) / time_diff)).
Proof.
  intros Hi Hl. cbv zeta.
  set (s1 := (traffic_stats_init (traffic_stats_deinit s) true timer_now ESP_OK ESP_OK).1).
  assert (Hs1 : s1 = State zero_stats zero_clients (get_time_ms timer_now) true
                           (prev_rx_bytes s) (prev_tx_bytes s) (get_time_ms timer_now)).
  { subst s1. unfold traffic_stats_deinit, traffic_stats_init. rewrite Hi. reflexivity. }
  split_and!; try (rewrite Hs1; reflexivity).
  intros Hg.
  assert (Hi1 : g_initialized s1 = true) by (rewrite Hs1; reflexivity).
  rewrite (update_committed s1 e Hi1 Hl). simpl.
  rewrite Hs1. simpl. rewrite elapsed_ms_max.
  destruct (read_totals_range (traffic e)) as [Hrx _].
  by apply compute_speed_guard.
Qed.

Lemma reinit_keeps_byte_baseline_witness :
  let s := traffic_stats_update init_state (tick_at 1000 1000 500 []) in
  let s1 := (traffic_stats_init (traffic_stats_deinit s) true 60000000 ESP_OK ESP_OK).1 in
  let s2 := traffic_stats_update s1 (tick_at 61000 5000 500 []) in
  prev_rx_bytes s1 = 1000 ∧ rx_bytes (g_stats s1) = 0 ∧ rx_speed (g_stats s2) = 4000.
Proof.
  intros s s1 s2.
  destruct (reinit_keeps_byte_baseline s (tick_at 61000 5000 500 []) 60000000
              eq_refl eq_refl) as (_ & Hst & _ & Hp & _ & Hsp).
  split_and!; [exact Hp | exact (f_equal rx_bytes Hst) |].
  etransitivity; [apply Hsp | reflexivity].
  split; vm_compute; [reflexivity | discriminate].
Defined.

(** ** Peaks against speeds *)

(** X4.  After every tick that gets the lock each peak is at least the
    current speed and at least the peak before the tick. *)
Theorem peak_dominates_speed s e :
  g_initialized s = true → lock_taken e = true →
  let s' := traffic_stats_update s e in
  rx_speed (g_stats s') ≤ peak_rx_speed (g_stats s') ∧
  tx_speed (g_stats s') ≤ peak_tx_speed (g_stats s') ∧
  peak_rx_speed (g_stats s) ≤ peak_rx_speed (g_stats s') ∧
  peak_tx_speed (g_stats s) ≤ peak_tx_speed (g_stats s').
Proof.
  intros Hi Hl. cbv zeta.
  destruct (update_peaks s e) as [Hr Ht]. cbv zeta in Hr, Ht.
  assert (Hc : committed s e = true) by (unfold committed; by rewrite Hi, Hl).
  rewrite Hc in Hr, Ht. lia.
Qed.

Lemma peak_dominates_speed_witness :
  let s := run_ticks init_state [tick_at 1000 1000 500 []; tick_at 2000 4000 900 []] in
  let s' := traffic_stats_update s (tick_at 3000 4500 1000 []) in
  rx_speed (g_stats s') = 500 ∧ peak_rx_speed (g_stats s') = 3000 ∧
  rx_speed (g_stats s') ≤ peak_rx_speed (g_stats s').
Proof.
  intros s s'.
  destruct (peak_dominates_speed s (tick_at 3000 4500 1000 []) eq_refl eq_refl)
    as (H & _).
  split_and!; [reflexivity | reflexivity | exact H].
Defined.

(** ** Clock arithmetic *)

Lemma wrap32_sub t1 t0 : wrap32 (wrap32 t1 - wrap32 t0) = wrap32 (t1 - t0).
Proof. unfold wrap32. by rewrite <- Zminus_mod. Qed.

(** X5.  The elapsed time of a tick is right across the wrap of the 32-bit
    millisecond clock: for two readings of the microsecond timer that are
    [d] milliseconds apart, [0 < d < 2^32], [time_diff] is [d]; for readings
    in the same millisecond it is 1. *)
Theorem elapsed_survives_clock_wrap u0 u1 :
  let d := u1 ÷ 1000 - u0 ÷ 1000 in
  (0 < d < 2 ^ 32 → elapsed_ms (get_time_ms u1) (get_time_ms u0) = d) ∧
  (d = 0 → elapsed_ms (get_time_ms u1) (get_time_ms u0) = 1).
Proof.
  cbv zeta. unfold elapsed_ms, get_time_ms. rewrite wrap32_sub. split.
  - intros Hd. unfold wrap32. rewrite Z.mod_small by lia.
    destruct (Z.eqb_spec (u1 ÷ 1000 - u0 ÷ 1000) 0); lia.
  - intros ->. reflexivity.
Qed.

(** Readings 200 ms before and 800 ms after the clock wraps at 2^32 ms. *)
Lemma elapsed_survives_clock_wrap_witness :
  get_time_ms 4294967096000 = 4294967096 ∧ get_time_ms 4294968096000 = 800 ∧
  elapsed_ms (get_time_ms 4294968096000) (get_time_ms 4294967096000) = 1000.
Proof.
  split_and!; [reflexivity | reflexivity |].
  apply (proj1 (elapsed_survives_clock_wrap 4294967096000 4294968096000)).
  vm_compute. split; reflexivity.
Defined.

(** ** Speeds without overflow *)

(** X6.  When the previous sample is non-zero and not above the new total,
    the 64-bit product [delta * 1000] does not overflow and the quotient
    fits the 32-bit field, the stored speed is exactly
    [delta * 1000 / time_diff]. *)
Theorem speed_is_plain_quotient s e :
  g_initialized s = true → lock_taken e = true →
  let s' := traffic_stats_update s e in
  let time_diff := Z.max 1 (wrap32 (get_time_ms (timer_us e) - prev_update_time s)) in
  let total_rx := (read_totals (traffic e)).1 in
  let total_tx := (read_totals (traffic e)).2 in
  (speed_guard (prev_rx_bytes s) total_rx →
   (total_rx - prev_rx_bytes s) * 1000 < 2 ^ 64 →
   (total_rx - prev_rx_bytes s) * 1000 / time_diff < 2 ^ 32 →
   rx_speed (g_stats s') = (total_rx - prev_rx_bytes s) * 1000 / time_diff) ∧
  (speed_guard (prev_tx_bytes s) total_tx →
   (total_tx - prev_tx_bytes s) * 1000 < 2 ^ 64 →
   (total_tx - prev_tx_bytes s) * 1000 / time_diff < 2 ^ 32 →
   tx_speed (g_stats s') = (total_tx - prev_tx_bytes s) * 1000 / time_diff).
Proof.
  intros Hi Hl. cbv zeta. rewrite (update_committed s e Hi Hl). simpl.
  rewrite <- elapsed_ms_max.
  split; intros Hg H64 H32; apply compute_speed_exact; try done;
    apply elapsed_ms_pos.
Qed.

(** 2.5 MB in 250 ms is 10 MB/s. *)
Lemma speed_is_plain_quotient_witness :
  let s := traffic_stats_update init_state (tick_at 1000 1000000 1 []) in
  rx_speed (g_stats (traffic_stats_update s (tick_at 1250 3500000 1 []))) = 10000000.
Proof.
  intros s.
  destruct (speed_is_plain_quotient s (tick_at 1250 3500000 1 []) eq_refl eq_refl)
    as [H _].
  etransitivity; [apply H | reflexivity].
  - split; vm_compute; [reflexivity | discriminate].
  - vm_compute. reflexivity.
  - vm_compute. reflexivity.
Defined.

(** X7.  From the zeroed statics, in any sequence of calls without a deinit,
    every speed that a tick computes is measured over the time since the
    [last_update] field of the statistics. *)
Theorem speed_measured_from_last_update calls e :
  CallDeinit ∉ calls →
  let s := run_calls boot_state calls in
  g_initialized s = true → lock_taken e = true →
  let s' := traffic_stats_update s e in
  let time_diff :=
    Z.max 1 (wrap32 (get_time_ms (timer_us e) - last_update (g_stats s))) in
  let total_rx := (read_totals (traffic e)).1 in
  let total_tx := (read_totals (traffic e)).2 in
  (speed_guard (prev_rx_bytes s) total_rx →
   rx_speed (g_stats s')
   = wrap32 (wrap64 ((total_rx - prev_rx_bytes s) * 1000) / time_diff)) ∧
  (speed_guard (prev_tx_bytes s) total_tx →
   tx_speed (g_stats s')
   = wrap32 (wrap64 ((total_tx - prev_tx_bytes s) * 1000) / time_diff)).
Proof.
  intros Hnd s Hi Hl. cbv zeta.
  pose proof (time_base_synced_run calls Hnd) as Hsync. fold s in Hsync.
  unfold time_base_synced in Hsync.
  rewrite (update_committed s e Hi Hl). simpl.
  destruct (read_totals_range (traffic e)) as [Hrx Htx].
  split; intros Hg; rewrite Hsync, <- elapsed_ms_max.
  - rewrite <- Hsync by (left; apply Hg). by apply compute_speed_guard.
  - left. apply Hg.
  - rewrite <- Hsync by (right; apply Hg). by apply compute_speed_guard.
  - right. apply Hg.
Qed.

Lemma speed_measured_from_last_update_witness :
  let calls := [CallInit true 0 ESP_OK ESP_OK;
                CallUpdate (tick_at 1000 1000 500 []);
                CallResetPeak true;
                CallUpdate (tick_at 2000 4000 900 [])] in
  let s := run_calls boot_state calls in
  last_update (g_stats s) = 2000 ∧
  rx_speed (g_stats (traffic_stats_update s (tick_at 2500 5000 900 []))) = 2000.
Proof.
  intros calls s.
  assert (Hnd : CallDeinit ∉ calls).
  { subst calls. rewrite !not_elem_of_cons. split_and!; try discriminate.
    apply not_elem_of_nil. }
  destruct (speed_measured_from_last_update calls (tick_at 2500 5000 900 [])
              Hnd eq_refl eq_refl) as [H _].
  split; [reflexivity |].
  etransitivity; [apply H | reflexivity].
  split; vm_compute; [reflexivity | discriminate].
Defined.

(** ** Uptime *)

(** X8.  [traffic_stats_get_uptime] is 0 while the module is not
    initialised, and otherwise below 4294968 seconds.  After a [reset()] at
    timer reading [u0] it returns, at any later reading [u1] less than 2^32
    milliseconds after, the whole seconds of the elapsed milliseconds, also
    when the 32-bit millisecond clock wrapped in between. *)
Theorem uptime_counts_seconds s u0 u1 :
  (g_initialized s = false → traffic_stats_get_uptime s u1 = 0) ∧
  0 ≤ traffic_stats_get_uptime s u1 < 4294968 ∧
  (g_initialized s = true → 0 ≤ u1 ÷ 1000 - u0 ÷ 1000 < 2 ^ 32 →
   traffic_stats_get_uptime (traffic_stats_reset s true u0) u1
   = (u1 ÷ 1000 - u0 ÷ 1000) / 1000).
Proof.
  unfold traffic_stats_get_uptime. split; [|split].
  - by intros ->.
  - destruct (g_initialized s); simpl; [|lia].
    pose proof (wrap32_range (get_time_ms u1 - g_start_time s)) as Hr.
    split; [apply Z.div_pos; lia |].
    apply Z.div_lt_upper_bound; lia.
  - intros Hi Hd. unfold traffic_stats_reset. rewrite Hi. simpl.
    unfold get_time_ms. rewrite wrap32_sub. unfold wrap32.
    by rewrite Z.mod_small.
Qed.

(** Reset 96 seconds before the millisecond clock wraps, read 4 seconds
    after the wrap: 100 seconds. *)
Lemma uptime_counts_seconds_witness :
  traffic_stats_get_uptime (traffic_stats_reset init_state true 4294871296000)
                           4294971296000 = 100.
Proof.
  destruct (uptime_counts_seconds init_state 4294871296000 4294971296000)
    as (_ & _ & H).
  etransitivity; [apply H | reflexivity].
  - reflexivity.
  - vm_compute. split; [discriminate | reflexivity].
Defined.

(** ** Slots in use *)

Lemma in_use_not_empty c : in_use c ↔ slot_is_empty c = false.
Proof.
  unfold in_use, slot_is_empty.
  destruct (active c), (Z.eqb_spec (ip c) 0); simpl; split; intros H; try done; auto.
  destruct H; done.
Qed.

Lemma used_first_deactivate g : used_first g → used_first (deactivate <$> g).
Proof.
  intros Hinv i j ci cj Hi Hj Huse Heq.
  rewrite list_lookup_fmap in Hi, Hj.
  destruct (g !! i) as [ci0|] eqn:Ei; simpl in Hi; [|discriminate].
  destruct (g !! j) as [cj0|] eqn:Ej; simpl in Hj; [|discriminate].
  injection Hi as <-. injection Hj as <-.
  apply (Hinv i j ci0 cj0); [done | done | | done].
  destruct Huse as [Ha|Hip]; [discriminate | by right].
Qed.

Lemma used_first_assign now g sta :
  used_first g → used_first (assign_client now g sta).
Proof.
  intros Hinv. unfold assign_client, find_slot.
  destruct (find_mac_slot g (sta_mac sta)) as [s|] eqn:Hm.
  - apply find_mac_slot_Some in Hm as (c & Hs & Hmac & Hleast).
    intros i j ci cj Hi Hj Huse Heq.
    apply lookup_store in Hi as (ci0 & Hi0 & Hi).
    apply lookup_store in Hj as (cj0 & Hj0 & Hj).
    assert (Hmi : mac ci = mac ci0).
    { destruct Hi as [[-> ->]|[_ ->]]; [simpl; congruence | done]. }
    destruct Hj as [[-> ->]|[Hne ->]].
    + simpl in Heq. destruct (decide (s ≤ i)%nat) as [|Hlt]; [done |].
      exfalso. apply (Hleast i ci0); [lia | done | congruence].
    + apply (Hinv i j ci0 cj0); [done | done | done | congruence].
  - pose proof (proj1 (find_mac_slot_None _ _) Hm) as Hmiss.
    destruct (find_empty_slot g) as [s|] eqn:He; [|done].
    intros i j ci cj Hi Hj Huse Heq.
    apply lookup_store in Hi as (ci0 & Hi0 & Hi).
    apply lookup_store in Hj as (cj0 & Hj0 & Hj).
    destruct Hj as [[-> ->]|[Hnej ->]], Hi as [[-> ->]|[Hnei ->]]; simpl in *.
    + done.
    + exfalso. by apply (Hmiss i ci0).
    + exfalso. apply (Hmiss j cj0); [done | congruence].
    + by apply (Hinv i j ci0 cj0).
Qed.

Lemma used_first_update_clients g reported now :
  used_first g → used_first (update_clients g reported now).
Proof.
  intros Hg. unfold update_clients.
  generalize (take MAX_CLIENTS reported) as l.
  generalize (used_first_deactivate g Hg).
  generalize (deactivate <$> g) as t.
  intros t Ht l. revert t Ht.
  induction l as [|sta l IH]; intros t Ht; simpl; [done |].
  apply IH. by apply used_first_assign.
Qed.

Lemma used_first_zero : used_first zero_clients.
Proof.
  intros i j ci cj _ Hj Huse _.
  apply lookup_replicate_1 in Hj as [-> _]. destruct Huse; done.
Qed.

Lemma used_first_run calls : used_first (g_clients (run_calls boot_state calls)).
Proof.
  assert (Hgen : ∀ s, used_first (g_clients s) →
                      used_first (g_clients (run_calls s calls))).
  { induction calls as [|c calls IH]; intros s Hs; simpl; [done |].
    apply IH. destruct c as [m t cr sr| |e|l t|l]; simpl.
    - unfold traffic_stats_init. destruct (g_initialized s); [done |].
      destruct m; simpl; [|done].
      destruct (cr =? ESP_OK); simpl; [|apply used_first_zero].
      destruct (sr =? ESP_OK); simpl; apply used_first_zero.
    - unfold traffic_stats_deinit. by destruct (g_initialized s).
    - unfold traffic_stats_update. destruct (g_initialized s); simpl; [|done].
      destruct (lock_taken e); simpl; [|done].
      destruct (read_totals (traffic e)). simpl.
      destruct (sta_list e); [by apply used_first_update_clients | done].
    - unfold traffic_stats_reset. by destruct (g_initialized s), l.
    - unfold traffic_stats_reset_peak. by destruct (g_initialized s), l. }
  apply Hgen, used_first_zero.
Qed.

Lemma find_slot_held m j g sta s :
  holds_station m j g → find_slot g (sta_mac sta) = Some s →
  (s = j ∧ sta_mac sta = m) ∨ (s ≠ j ∧ sta_mac sta ≠ m).
Proof.
  intros (c & Hj & Hmac & Huse & Hfirst) Hf. unfold find_slot in Hf.
  destruct (find_mac_slot g (sta_mac sta)) as [s'|] eqn:Hm.
  - injection Hf as ->.
    apply find_mac_slot_Some in Hm as (c' & Hs & Hmac' & Hleast).
    destruct (decide (sta_mac sta = m)) as [Heq|Hne].
    + left. split; [|done].
      destruct (lt_eq_lt_dec s j) as [[Hlt|Heq']|Hgt]; [|done|].
      * exfalso. apply (Hfirst s c'); [done | done | congruence].
      * exfalso. apply (Hleast j c); [lia | done | congruence].
    + right. split; [|done]. intros ->. congruence.
  - pose proof (proj1 (find_mac_slot_None _ _) Hm) as Hmiss.
    apply find_empty_slot_Some in Hf as (c' & Hs & Ha & Hip & _).
    right. split.
    + intros ->. assert (c' = c) as -> by congruence.
      destruct Huse; congruence.
    + intros Heq. apply (Hmiss j c); [done | congruence].
Qed.

(** A station with another address leaves a held slot alone. *)
Lemma assign_keeps_held now m j g sta :
  holds_station m j g → sta_mac sta ≠ m →
  assign_client now g sta !! j = g !! j.
Proof.
  intros Hh Hne. unfold assign_client.
  destruct (find_slot g (sta_mac sta)) as [s|] eqn:Hf; [|done].
  destruct (find_slot_held m j g sta s Hh Hf) as [[_ Heq]|[Hs _]]; [done |].
  by rewrite list_lookup_alter_ne.
Qed.

Lemma assign_first_kept now m j g sta :
  holds_station m j g →
  ∀ k c', (k < j)%nat → assign_client now g sta !! k = Some c' → mac c' ≠ m.
Proof.
  intros Hh k c' Hk Hl.
  pose proof Hh as (c & Hj & Hmac & Huse & Hfirst).
  unfold assign_client in Hl.
  destruct (find_slot g (sta_mac sta)) as [s|] eqn:Hf; [|eauto].
  apply lookup_store in Hl as (c0 & Hl0 & Hl).
  destruct Hl as [[Hks ->]|[_ ->]]; [|eauto]. simpl.
  destruct (find_slot_held m j g sta s Hh Hf) as [[Hsj _]|[_ Hne]]; [lia | done].
Qed.

(** The station itself processed: its slot is refreshed. *)
Lemma holds_station_hit now m j g sta :
  holds_station m j g → sta_mac sta = m → refreshed now m j (assign_client now g sta).
Proof.
  intros Hh Heq. pose proof Hh as (c & Hj & Hmac & Huse & Hfirst).
  assert (Hf : find_slot g (sta_mac sta) = Some j).
  { unfold find_slot.
    assert (Hm : find_mac_slot g (sta_mac sta) = Some j).
    { apply find_mac_slot_Some. exists c. rewrite Heq. split_and!; done. }
    by rewrite Hm. }
  exists (store_client sta now c). split_and!; try done.
  - unfold assign_client. by rewrite Hf, list_lookup_alter_eq, Hj.
  - by apply assign_first_kept.
Qed.

(** One station processed: a held slot stays held. *)
Lemma holds_station_assign now m j g sta :
  holds_station m j g → holds_station m j (assign_client now g sta).
Proof.
  intros Hh. destruct (decide (sta_mac sta = m)) as [Heq|Hne].
  - destruct (holds_station_hit now m j g sta Hh Heq) as (c & ? & ? & ? & _ & ?).
    exists c. split_and!; try done. by left.
  - pose proof Hh as (c & Hj & Hmac & Huse & Hfirst).
    exists c. split_and!; try done.
    + by rewrite (assign_keeps_held now m j g sta Hh Hne).
    + by apply assign_first_kept.
Qed.

Lemma refreshed_holds now m j g : refreshed now m j g → holds_station m j g.
Proof.
  intros (c & Hj & Hmac & Ha & _ & Hfirst). exists c.
  split_and!; try done. by left.
Qed.

Lemma refreshed_assign now m j g sta :
  refreshed now m j g → refreshed now m j (assign_client now g sta).
Proof.
  intros Hr. pose proof (refreshed_holds now m j g Hr) as Hh.
  destruct (decide (sta_mac sta = m)) as [Heq|Hne].
  - by apply holds_station_hit.
  - destruct Hr as (c & Hj & Hmac & Ha & Hla & Hfirst).
    exists c. split_and!; try done.
    + by rewrite (assign_keeps_held now m j g sta Hh Hne).
    + by apply assign_first_kept.
Qed.

Lemma holds_station_foldl now m j l : ∀ g,
  holds_station m j g → holds_station m j (foldl (assign_client now) g l).
Proof.
  induction l as [|sta l IH]; intros g Hg; simpl; [done |].
  by apply IH, holds_station_assign.
Qed.

Lemma refreshed_foldl now m j l : ∀ g,
  refreshed now m j g → refreshed now m j (foldl (assign_client now) g l).
Proof.
  induction l as [|sta l IH]; intros g Hg; simpl; [done |].
  by apply IH, refreshed_assign.
Qed.

Lemma holds_station_reported now m j l : ∀ g sta,
  holds_station m j g → sta ∈ l → sta_mac sta = m →
  refreshed now m j (foldl (assign_client now) g l).
Proof.
  induction l as [|sta0 l IH]; intros g sta Hg Hin Heq; simpl.
  - by apply elem_of_nil in Hin.
  - apply elem_of_cons in Hin as [->|Hin].
    + by apply refreshed_foldl, holds_station_hit.
    + apply (IH _ sta); [by apply holds_station_assign | done | done].
Qed.

Lemma holds_station_start g j c :
  used_first g → g !! j = Some c → ip c ≠ 0 →
  holds_station (mac c) j (deactivate <$> g).
Proof.
  intros Hinv Hj Hip. exists (deactivate c). split_and!.
  - by rewrite list_lookup_fmap, Hj.
  - done.
  - by right.
  - intros k c' Hk Hl Heq. rewrite list_lookup_fmap in Hl.
    destruct (g !! k) as [c0|] eqn:Ek; simpl in Hl; [|discriminate].
    injection Hl as <-. simpl in Heq.
    specialize (Hinv k j c0 c Ek Hj (or_intror Hip) Heq). lia.
Qed.

(** X9.  A slot whose record carries a non-zero IP is never given to another
    station: in every state reached from the zeroed statics, whatever the
    next tick reports, the slot holds the same hardware address after it. *)
Theorem record_with_ip_keeps_slot calls e j c :
  let s := run_calls boot_state calls in
  g_clients s !! j = Some c → ip c ≠ 0 →
  ∃ c', g_clients (traffic_stats_update s e) !! j = Some c' ∧ mac c' = mac c.
Proof.
  intros s Hj Hip.
  destruct (committed s e) eqn:Hc; [|rewrite update_abandoned by done; eauto].
  unfold committed in Hc. apply andb_true_iff in Hc as [Hi Hl].
  rewrite (update_committed s e Hi Hl). simpl.
  destruct (sta_list e) as [reported|]; [|eauto].
  pose proof (used_first_run calls) as Hinv. fold s in Hinv.
  pose proof (holds_station_start _ j c Hinv Hj Hip) as Hh.
  apply (holds_station_foldl (get_time_ms (timer_us e)) _ _
           (take MAX_CLIENTS reported)) in Hh.
  destruct Hh as (c' & Hj' & Hmac & _). by exists c'.
Qed.

(** Station 01 (with an IP) has left; three new stations arrive: slot 0
    still holds station 01. *)
Lemma record_with_ip_keeps_slot_witness :
  let calls := [CallInit true 0 ESP_OK ESP_OK;
                CallUpdate (tick_at 1000 0 0 [station x01]);
                CallUpdate (tick_at 2000 0 0 [])] in
  let e := tick_at 3000 0 0 [station x02; station x03; station x04] in
  mac <$> g_clients (traffic_stats_update (run_calls boot_state calls) e) !! 0%nat
  = Some (sta_mac (station x01)).
Proof.
  intros calls e.
  destruct (record_with_ip_keeps_slot calls e 0%nat
              (ClientStats (sta_mac (station x01)) (sta_ip (station x01)) 0 0 1000 false)
              eq_refl)
    as (c' & Hj & Hmac); [discriminate |].
  rewrite Hj. simpl. by rewrite Hmac.
Defined.

(** X10.  A station whose record carries a non-zero IP, active or not, and
    that is among the first [MAX_CLIENTS] stations of a tick gets the slot it
    had: after the tick that slot is active, holds its address and has
    [last_active] equal to the time of the tick. *)
Theorem reported_station_keeps_slot calls e reported j c sta :
  let s := run_calls boot_state calls in
  g_initialized s = true → lock_taken e = true → sta_list e = Some reported →
  g_clients s !! j = Some c → ip c ≠ 0 →
  sta ∈ take MAX_CLIENTS reported → sta_mac sta = mac c →
  ∃ c', g_clients (traffic_stats_update s e) !! j = Some c' ∧
        mac c' = mac c ∧ active c' = true ∧
        last_active c' = get_time_ms (timer_us e).
Proof.
  intros s Hi Hl Hsta Hj Hip Hin Heq.
  rewrite (update_committed s e Hi Hl). simpl. rewrite Hsta.
  pose proof (used_first_run calls) as Hinv. fold s in Hinv.
  pose proof (holds_station_start _ j c Hinv Hj Hip) as Hh.
  destruct (holds_station_reported (get_time_ms (timer_us e)) _ j _ _ sta Hh Hin Heq)
    as (c' & Hj' & Hmac & Ha & Hla & _).
  by exists c'.
Qed.

(** Stations 01, 02, 03 registered; 02 leaves for a tick; then 03, a new
    station 05, 02 and 01 are reported in that order: 02 is back in slot 1. *)
Lemma reported_station_keeps_slot_witness :
  let calls := [CallInit true 0 ESP_OK ESP_OK;
                CallUpdate (tick_at 1000 0 0 [station x01; station x02; station x03]);
                CallUpdate (tick_at 2000 0 0 [station x01; station x03])] in
  let e := tick_at 3000 0 0 [station x03; station x05; station x02; station x01] in
  (λ c, (mac c, active c, last_active c))
    <$> g_clients (traffic_stats_update (run_calls boot_state calls) e) !! 1%nat
  = Some (sta_mac (station x02), true, 3000).
Proof.
  intros calls e.
  destruct (reported_station_keeps_slot calls e
              [station x03; station x05; station x02; station x01] 1%nat
              (ClientStats (sta_mac (station x02)) (sta_ip (station x02)) 0 0 1000 false)
              (station x02) eq_refl eq_refl eq_refl eq_refl)
    as (c' & Hj & Hm & Ha & Hla); [discriminate | | reflexivity |].
  - do 2 apply list_elem_of_further. apply list_elem_of_here.
  - rewrite Hj. simpl. rewrite Hm, Ha, Hla. reflexivity.
Defined.

(** ** Who is active after a tick *)

Lemma seen_now_assign now done g sta :
  seen_now now done g → seen_now now (done ++ [sta]) (assign_client now g sta).
Proof.
  intros Hg j c Hl Ha. unfold assign_client in Hl.
  assert (Hold : ∀ c0, g !! j = Some c0 → active c0 = true →
            last_active c0 = now ∧
            ∃ sta0, sta0 ∈ done ++ [sta] ∧ mac c0 = sta_mac sta0 ∧ ip c0 = sta_ip sta0).
  { intros c0 Hl0 Ha0. destruct (Hg j c0 Hl0 Ha0) as (Hla & sta0 & Hin & Hm & Hip).
    split; [done |]. exists sta0. split_and!; try done.
    apply elem_of_app. by left. }
  destruct (find_slot g (sta_mac sta)) as [s|]; [|eauto].
  apply lookup_store in Hl as (c0 & Hl0 & Hl).
  destruct Hl as [[-> ->]|[_ ->]]; [|eauto].
  split; [done |]. exists sta. split_and!; try done.
  apply elem_of_app. right. apply list_elem_of_here.
Qed.

Lemma seen_now_foldl now l : ∀ done g,
  seen_now now done g → seen_now now (done ++ l) (foldl (assign_client now) g l).
Proof.
  induction l as [|sta l IH]; intros done g Hg; simpl.
  - by rewrite app_nil_r.
  - rewrite (cons_middle sta done l), app_assoc. by apply IH, seen_now_assign.
Qed.

Lemma seen_now_update_clients g reported now :
  seen_now now (take MAX_CLIENTS reported) (update_clients g reported now).
Proof.
  unfold update_clients.
  apply (seen_now_foldl now (take MAX_CLIENTS reported) []).
  intros j c Hl Ha. rewrite list_lookup_fmap in Hl.
  destruct (g !! j); simpl in Hl; [|discriminate].
  injection Hl as <-. discriminate.
Qed.

(** X11.  After a tick that got the lock and the station list, every active
    record of the table, and so every record that
    [traffic_stats_get_clients] returns, carries the address and IP of one of
    the first [MAX_CLIENTS] stations reported in that tick and has
    [last_active] equal to the time of the tick. *)
Theorem active_records_were_reported s e reported :
  g_initialized s = true → lock_taken e = true → sta_list e = Some reported →
  let s' := traffic_stats_update s e in
  let now := get_time_ms (timer_us e) in
  (∀ c, c ∈ g_clients s' → active c = true →
     last_active c = now ∧
     ∃ sta, sta ∈ take MAX_CLIENTS reported ∧ mac c = sta_mac sta ∧ ip c = sta_ip sta) ∧
  (∀ lock clients_given max_clients c,
     c ∈ (traffic_stats_get_clients s' lock clients_given max_clients).1 →
     last_active c = now ∧
     ∃ sta, sta ∈ take MAX_CLIENTS reported ∧ mac c = sta_mac sta ∧ ip c = sta_ip sta).
Proof.
  intros Hi Hl Hsta. cbv zeta.
  assert (Htab : ∀ c, c ∈ g_clients (traffic_stats_update s e) → active c = true →
     last_active c = get_time_ms (timer_us e) ∧
     ∃ sta, sta ∈ take MAX_CLIENTS reported ∧ mac c = sta_mac sta ∧ ip c = sta_ip sta).
  { rewrite (update_committed s e Hi Hl). simpl. rewrite Hsta.
    intros c [j Hj]%list_elem_of_lookup Ha.
    exact (seen_now_update_clients _ _ _ j c Hj Ha). }
  split; [exact Htab |].
  intros lock given max c Hin.
  pose proof (get_clients_prefix (traffic_stats_update s e) lock given max)
    as [k Hk].
  assert (Hf : c ∈ filter is_active (g_clients (traffic_stats_update s e))).
  { rewrite Hk. apply elem_of_app. by left. }
  apply list_elem_of_filter in Hf as [Ha Hc]. by apply Htab.
Qed.

(** Three stations registered, then a tick that reports only station 02. *)
Lemma active_records_were_reported_witness :
  let s := traffic_stats_update init_state
             (tick_at 1000 0 0 [station x01; station x02; station x03]) in
  let s' := traffic_stats_update s (tick_at 2000 0 0 [station x02]) in
  (traffic_stats_get_clients s' true true 16).1
  = [ClientStats (sta_mac (station x02)) (sta_ip (station x02)) 0 0 2000 true] ∧
  ∀ c, c ∈ (traffic_stats_get_clients s' true true 16).1 → last_active c = 2000.
Proof.
  intros s s'. split; [reflexivity |].
  intros c Hc.
  destruct (active_records_were_reported s (tick_at 2000 0 0 [station x02])
              [station x02] eq_refl eq_refl eq_refl) as [_ H].
  exact (proj1 (H true true 16 c Hc)).
Defined.

(** ** Who gets registered *)

Lemma has_active_assign now m g sta :
  has_active m g → has_active m (assign_client now g sta).
Proof.
  intros (j & c & Hj & Ha & Hm). unfold assign_client.
  destruct (find_slot g (sta_mac sta)) as [s|] eqn:Hf; [|by exists j, c].
  destruct (decide (s = j)) as [->|Hne].
  - exists j, (store_client sta now c). split_and!.
    + by rewrite list_lookup_alter_eq, Hj.
    + done.
    + simpl. unfold find_slot in Hf.
      destruct (find_mac_slot g (sta_mac sta)) as [s'|] eqn:Hs.
      * injection Hf as ->.
        apply find_mac_slot_Some in Hs as (c' & Hj' & Hm' & _). congruence.
      * apply find_empty_slot_Some in Hf as (c' & Hj' & Ha' & _). congruence.
  - exists j, c. split_and!; try done. by rewrite list_lookup_alter_ne.
Qed.

Lemma table_full_assign now g sta :
  table_full g → table_full (assign_client now g sta).
Proof.
  intros Hfull j c Hl. unfold assign_client in Hl.
  destruct (find_slot g (sta_mac sta)) as [s|]; [|eauto].
  apply lookup_store in Hl as (c0 & Hl0 & Hl).
  destruct Hl as [[-> ->]|[_ ->]]; [by left | eauto].
Qed.

Lemma assign_registers now g sta :
  has_active (sta_mac sta) (assign_client now g sta) ∨ table_full g.
Proof.
  destruct (find_slot g (sta_mac sta)) as [s|] eqn:Hf.
  - left. destruct (assign_client_slot now g sta s Hf) as (c & _ & Hs & _).
    by exists s, (store_client sta now c).
  - right. unfold find_slot in Hf.
    destruct (find_mac_slot g (sta_mac sta)); [discriminate |].
    exact (proj1 (find_empty_slot_None g) Hf).
Qed.

Lemma foldl_registers now l : ∀ g sta,
  sta ∈ l →
  has_active (sta_mac sta) (foldl (assign_client now) g l)
  ∨ table_full (foldl (assign_client now) g l).
Proof.
  assert (Hact : ∀ l m g, has_active m g → has_active m (foldl (assign_client now) g l)).
  { clear. intros l m. induction l as [|sta l IH]; intros g Hg; simpl; [done |].
    by apply IH, has_active_assign. }
  assert (Hfull : ∀ l g, table_full g → table_full (foldl (assign_client now) g l)).
  { clear. intros l. induction l as [|sta l IH]; intros g Hg; simpl; [done |].
    by apply IH, table_full_assign. }
  induction l as [|sta0 l IH]; intros g sta Hin; simpl.
  - by apply elem_of_nil in Hin.
  - apply elem_of_cons in Hin as [->|Hin]; [|by apply IH].
    destruct (assign_registers now g sta0) as [H|H].
    + left. by apply Hact.
    + right. by apply Hfull, table_full_assign.
Qed.

(** X12.  After a tick that got the lock and the station list, each of the
    first [MAX_CLIENTS] reported stations has an active record, unless no
    slot is free: every slot is then active or holds a record with a non-zero
    IP. *)
Theorem reported_station_registered s e reported sta :
  g_initialized s = true → lock_taken e = true → sta_list e = Some reported →
  sta ∈ take MAX_CLIENTS reported →
  let s' := traffic_stats_update s e in
  (∃ c, c ∈ g_clients s' ∧ active c = true ∧ mac c = sta_mac sta)
  ∨ (∀ c, c ∈ g_clients s' → active c = true ∨ ip c ≠ 0).
Proof.
  intros Hi Hl Hsta Hin. cbv zeta.
  rewrite (update_committed s e Hi Hl). simpl. rewrite Hsta. unfold update_clients.
  destruct (foldl_registers (get_time_ms (timer_us e)) _ (deactivate <$> g_clients s)
              sta Hin) as [(j & c & Hj & Ha & Hm)|Hfull].
  - left. exists c. split_and!; try done. by apply list_elem_of_lookup_2 in Hj.
  - right. intros c [j Hj]%list_elem_of_lookup. exact (Hfull j c Hj).
Qed.

(** Sixteen stations with IPs fill the table and leave; a new station is
    then dropped, because every slot still holds an IP. *)
Lemma reported_station_registered_witness :
  let s := run_ticks init_state
             [tick_at 1000 0 0 (take 16 twenty_stations); tick_at 2000 0 0 []] in
  let s' := traffic_stats_update s (tick_at 3000 0 0 [station x14]) in
  (traffic_stats_get_clients s' true true 16).1 = [] ∧
  ((∃ c, c ∈ g_clients s' ∧ active c = true ∧ mac c = sta_mac (station x14))
   ∨ (∀ c, c ∈ g_clients s' → active c = true ∨ ip c ≠ 0)).
Proof.
  intros s s'. split; [reflexivity |].
  apply (reported_station_registered s (tick_at 3000 0 0 [station x14])
           [station x14] (station x14) eq_refl eq_refl eq_refl).
  apply list_elem_of_here.
Defined.

(** ** Bounds on what a reader gets *)

(** X13.  In every state reached from the zeroed statics
    [traffic_stats_get_clients] returns at most [MAX_CLIENTS] records,
    whatever [max_clients] is. *)
Theorem get_clients_at_most_table_size calls lock clients_given max_clients :
  let r := traffic_stats_get_clients (run_calls boot_state calls)
             lock clients_given max_clients in
  (length r.1 ≤ MAX_CLIENTS)%nat ∧ 0 ≤ r.2 ≤ Z.of_nat MAX_CLIENTS.
Proof.
  cbv zeta. set (s := run_calls boot_state calls).
  assert (Hlen : (length (filter is_active (g_clients s)) ≤ MAX_CLIENTS)%nat).
  { rewrite <- (table_size_run calls). apply length_filter. }
  destruct (get_clients_cases s lock clients_given max_clients) as [-> | [-> _]];
    simpl; [|unfold MAX_CLIENTS; lia].
  rewrite length_take. lia.
Qed.

(** X14.  The module never writes the per-client byte counters: in every
    state reached from the zeroed statics, [rx_bytes] and [tx_bytes] of every
    client record are 0. *)
Theorem client_byte_counters_stay_zero calls :
  Forall no_client_bytes (g_clients (run_calls boot_state calls)).
Proof.
  assert (Hzero : Forall no_client_bytes zero_clients).
  { apply Forall_forall. intros c Hc. apply elem_of_replicate in Hc as [-> _]. done. }
  assert (Hassign : ∀ now g sta,
    Forall no_client_bytes g → Forall no_client_bytes (assign_client now g sta)).
  { intros now g sta Hg. unfold assign_client.
    destruct (find_slot g (sta_mac sta)) as [slot|]; [|done].
    apply Forall_lookup. intros j c Hl.
    apply lookup_store in Hl as (c0 & Hl0 & Hl).
    pose proof (Forall_lookup_1 _ _ _ _ Hg Hl0) as H0.
    destruct Hl as [[_ ->]|[_ ->]]; done. }
  assert (Hupd : ∀ now g reported,
    Forall no_client_bytes g → Forall no_client_bytes (update_clients g reported now)).
  { intros now g reported Hg. unfold update_clients.
    assert (Hd : Forall no_client_bytes (deactivate <$> g)).
    { apply Forall_fmap. eapply Forall_impl; [exact Hg |]. by intros c [? ?]. }
    revert Hd. generalize (deactivate <$> g) as t.
    induction (take MAX_CLIENTS reported) as [|sta l IH]; intros t Ht; simpl; [done |].
    by apply IH, Hassign. }
  assert (Hgen : ∀ s, Forall no_client_bytes (g_clients s) →
                      Forall no_client_bytes (g_clients (run_calls s calls))).
  { induction calls as [|c calls IH]; intros s Hs; simpl; [done |].
    apply IH. destruct c as [m t cr sr| |e|l t|l]; simpl.
    - unfold traffic_stats_init. destruct (g_initialized s); [done |].
      destruct m; simpl; [|done].
      destruct (cr =? ESP_OK); simpl; [|done].
      by destruct (sr =? ESP_OK).
    - unfold traffic_stats_deinit. by destruct (g_initialized s).
    - unfold traffic_stats_update. destruct (g_initialized s); simpl; [|done].
      destruct (lock_taken e); simpl; [|done].
      destruct (read_totals (traffic e)). simpl.
      destruct (sta_list e); [by apply Hupd | done].
    - unfold traffic_stats_reset. by destruct (g_initialized s), l.
    - unfold traffic_stats_reset_peak. by destruct (g_initialized s), l. }
  by apply Hgen.
Qed.

(** * The screens *)

Lemma valid_screen_cases c :
  0 ≤ c < SCREEN_MAX → c = 0 ∨ c = 1 ∨ c = 2 ∨ c = 3 ∨ c = 4.
Proof. unfold SCREEN_MAX. lia. Qed.

Lemma ui_switch_screen_current u screen :
  current_screen (ui_switch_screen u screen).1
  = if SCREEN_MAX <=? screen then SCREEN_DASHBOARD else screen.
Proof.
  unfold ui_switch_screen.
  destruct (Z.eqb_spec (if SCREEN_MAX <=? screen then SCREEN_DASHBOARD else screen)
                       (current_screen u)); simpl; congruence.
Qed.

Lemma switch_target_valid screen :
  0 ≤ screen →
  0 ≤ (if SCREEN_MAX <=? screen then SCREEN_DASHBOARD else screen) < SCREEN_MAX.
Proof.
  intros Hs. destruct (Z.leb_spec SCREEN_MAX screen);
    unfold SCREEN_DASHBOARD, SCREEN_MAX in *; lia.
Qed.

Lemma next_prev_valid u :
  0 ≤ current_screen u < SCREEN_MAX →
  0 ≤ current_screen (ui_next_screen u).1 < SCREEN_MAX ∧
  0 ≤ current_screen (ui_prev_screen u).1 < SCREEN_MAX.
Proof.
  intros Hc. unfold ui_next_screen, ui_prev_screen.
  rewrite !ui_switch_screen_current.
  destruct (valid_screen_cases _ Hc) as [->|[->|[->|[->| ->]]]];
    vm_compute; repeat split; intros; discriminate.
Qed.

(** X15.  Navigation keeps [current_screen] a valid index: from a valid
    screen, [ui_switch_screen] with any unsigned argument, [ui_next_screen]
    and [ui_prev_screen] all leave [current_screen] below [SCREEN_MAX];
    [ui_switch_screen] lands on its argument, or on the dashboard when the
    argument is out of range, and on an initialised UI it redraws exactly
    when the screen changes, drawing the new screen. *)
Theorem navigation_keeps_valid_screen u screen :
  0 ≤ current_screen u < SCREEN_MAX → 0 ≤ screen →
  let target := if SCREEN_MAX <=? screen then SCREEN_DASHBOARD else screen in
  current_screen (ui_switch_screen u screen).1 = target ∧
  0 ≤ target < SCREEN_MAX ∧
  (ui_switch_screen u screen).2
    = (if (target =? current_screen u) || negb (ui_initialized u)
       then None else Some target) ∧
  0 ≤ current_screen (ui_next_screen u).1 < SCREEN_MAX ∧
  0 ≤ current_screen (ui_prev_screen u).1 < SCREEN_MAX.
Proof.
  intros Hc Hs. cbv zeta.
  pose proof (switch_target_valid screen Hs) as Ht.
  split; [apply ui_switch_screen_current |]. split; [exact Ht |]. split.
  - unfold ui_switch_screen.
    set (target := if SCREEN_MAX <=? screen then SCREEN_DASHBOARD else screen) in *.
    destruct (Z.eqb_spec target (current_screen u)); simpl; [done |].
    unfold ui_update. simpl. destruct (ui_initialized u); simpl; [|done].
    destruct (valid_screen_cases target Ht) as [->|[->|[->|[->| ->]]]]; reflexivity.
  - by apply next_prev_valid.
Qed.

Lemma navigation_keeps_valid_screen_witness :
  let u := UiState init_state SCREEN_ABOUT true false false in
  ui_switch_screen u 7 = (UiState init_state SCREEN_DASHBOARD true false false,
                          Some SCREEN_DASHBOARD) ∧
  current_screen (ui_next_screen u).1 = SCREEN_DASHBOARD ∧
  (ui_switch_screen u 4).2 = None.
Proof.
  intros u.
  destruct (navigation_keeps_valid_screen u 7) as (H1 & _ & H2 & _);
    [vm_compute; split; [discriminate | reflexivity] | lia |].
  split_and!; [|reflexivity | reflexivity].
  apply injective_projections; [|exact H2].
  unfold ui_switch_screen. reflexivity.
Defined.

(** X16.  [ui_next_screen] and [ui_prev_screen] undo each other on a valid
    screen, and five [ui_next_screen] calls come back to the screen they
    started from, every other static untouched. *)
Theorem navigation_round_trip u :
  0 ≤ current_screen u < SCREEN_MAX →
  (ui_prev_screen (ui_next_screen u).1).1 = u ∧
  (ui_next_screen (ui_prev_screen u).1).1 = u ∧
  Nat.iter 5 (λ v, (ui_next_screen v).1) u = u.
Proof.
  intros Hc. destruct u as [st c ini created running]. simpl in Hc.
  destruct (valid_screen_cases c Hc) as [->|[->|[->|[->| ->]]]];
    split_and!; reflexivity.
Qed.

Lemma navigation_round_trip_witness :
  let u := UiState init_state SCREEN_DASHBOARD true true true in
  (ui_prev_screen u).1 = UiState init_state SCREEN_ABOUT true true true ∧
  (ui_next_screen (ui_prev_screen u).1).1 = u.
Proof.
  intros u. split; [reflexivity |].
  apply (navigation_round_trip u). vm_compute. split; [discriminate | reflexivity].
Defined.

(** ** UI lifecycle *)




Lemma ui_step_valid u c :
  screen_arg_ok c →
  0 ≤ current_screen u < SCREEN_MAX →
  0 ≤ current_screen (ui_step u c) < SCREEN_MAX.
Proof.
  intros Harg Hc.
  destruct c as [d m t cr sr| |screen| | |created|]; simpl in *.
  - unfold ui_init. destruct (ui_initialized u); simpl; [done |].
    destruct (d =? ESP_OK); simpl; [|done].
    destruct (traffic_stats_init (stats u) m t cr sr) as [s' ret].
    destruct (ret =? ESP_OK); simpl; [unfold SCREEN_DASHBOARD, SCREEN_MAX; lia | done].
  - unfold ui_deinit, ui_stop_task.
    destruct (ui_initialized u); simpl; [|done].
    by destruct (ui_task_created u).
  - rewrite ui_switch_screen_current. apply switch_target_valid. lia.
  - by apply next_prev_valid.
  - by apply next_prev_valid.
  - unfold ui_start_task. by destruct (ui_task_created u), created.
  - unfold ui_stop_task. by destruct (ui_task_created u).
Qed.

(** X18.  Whatever sequence of UI entry points is called from the initial
    statics, [current_screen] stays below [SCREEN_MAX], so it is always a
    valid index of the five [screen_names]. *)
Theorem ui_screen_always_valid calls :
  Forall screen_arg_ok calls →
  0 ≤ current_screen (foldl ui_step ui_boot_state calls) < SCREEN_MAX.
Proof.
  assert (Hgen : ∀ u, Forall screen_arg_ok calls →
    0 ≤ current_screen u < SCREEN_MAX →
    0 ≤ current_screen (foldl ui_step u calls) < SCREEN_MAX).
  { induction calls as [|c calls IH]; intros u Hall Hu; simpl; [done |].
    apply Forall_cons in Hall as [Hc Hall].
    apply IH; [done |]. by apply ui_step_valid. }
  intros Hall. apply Hgen; [done |]. vm_compute. split; [discriminate | reflexivity].
Qed.

Lemma ui_screen_always_valid_witness :
  current_screen
    (foldl ui_step ui_boot_state
       [UiInit ESP_OK true 0 ESP_OK ESP_OK; UiPrev; UiSwitch 4294967295; UiPrev; UiPrev])
  = SCREEN_SETTINGS ∧
  0 ≤ current_screen
        (foldl ui_step ui_boot_state
           [UiInit ESP_OK true 0 ESP_OK ESP_OK; UiPrev; UiSwitch 4294967295; UiPrev; UiPrev])
    < SCREEN_MAX.
Proof.
  split; [reflexivity |].
  apply ui_screen_always_valid.
  repeat constructor; vm_compute; discriminate.
Defined.

(** * The speed gauge *)

Lemma wrap8_small z : 0 ≤ z < 2 ^ 8 → wrap8 z = z.
Proof. intros H. unfold wrap8. apply Z.mod_small. lia. Qed.

Lemma gauge_percent_exact speed max_speed :
  0 < max_speed → 0 ≤ speed → speed * 100 < 2 ^ 32 →
  speed * 100 / max_speed < 256 →
  gauge_percent speed max_speed = Z.min 100 (speed * 100 / max_speed).
Proof.
  intros Hm Hs H32 Hq. unfold gauge_percent.
  destruct (Z.ltb_spec 0 max_speed); [|lia]. simpl.
  assert (Hq0 : 0 ≤ speed * 100 / max_speed) by (apply Z.div_pos; lia).
  destruct (Z.ltb_spec 0 speed).
  - unfold wrap32. rewrite (Z.mod_small (speed * 100)) by lia.
    rewrite wrap8_small by lia.
    destruct (Z.ltb_spec 100 (speed * 100 / max_speed)); lia.
  - assert (speed = 0) as -> by lia. simpl. rewrite Z.div_0_l by lia. reflexivity.
Qed.

(** X19.  The percentage of a speed gauge is always between 0 and 100.  It
    is [min(100, speed * 100 / max_speed)] when [speed * 100] fits 32 bits
    and the quotient is below 256; a larger quotient is first cut to its low
    eight bits. *)
Theorem gauge_percent_bounded speed max_speed :
  0 ≤ gauge_percent speed max_speed ≤ 100 ∧
  (0 < max_speed → 0 ≤ speed → speed * 100 < 2 ^ 32 →
   speed * 100 / max_speed < 256 →
   gauge_percent speed max_speed = Z.min 100 (speed * 100 / max_speed)) ∧
  (0 < max_speed → 0 < speed →
   gauge_percent speed max_speed
   = Z.min 100 (wrap32 (speed * 100) / max_speed mod 256)).
Proof.
  split; [|split].
  - unfold gauge_percent.
    destruct ((0 <? max_speed) && (0 <? speed)); [|lia].
    assert (0 ≤ wrap8 (wrap32 (speed * 100) / max_speed) < 256)
      by (unfold wrap8; apply Z.mod_pos_bound; lia).
    destruct (Z.ltb_spec 100 (wrap8 (wrap32 (speed * 100) / max_speed))); lia.
  - apply gauge_percent_exact.
  - intros Hm Hs. unfold gauge_percent, wrap8.
    destruct (Z.ltb_spec 0 max_speed); [|lia].
    destruct (Z.ltb_spec 0 speed); [|lia]. simpl.
    change (2 ^ 8) with 256.
    destruct (Z.ltb_spec 100 (wrap32 (speed * 100) / max_speed mod 256)); lia.
Qed.

(** 1.5 MB/s on a 2 MB/s scale is 75 %; 3 MB/s on a 1 MB/s scale is 300 %,
    shown as 300 - 256 = 44 %. *)
Lemma gauge_percent_bounded_witness :
  gauge_percent 1500000 2000000 = 75 ∧ gauge_percent 3000000 1000000 = 44.
Proof.
  destruct (gauge_percent_bounded 1500000 2000000) as (_ & H & _).
  destruct (gauge_percent_bounded 3000000 1000000) as (_ & _ & H').
  split.
  - etransitivity; [apply H; vm_compute; (reflexivity || discriminate) | reflexivity].
  - etransitivity; [apply H'; vm_compute; reflexivity | reflexivity].
Defined.

Lemma compute_speed_range prev total time_diff old :
  0 ≤ old < 2 ^ 32 → 0 ≤ compute_speed prev total time_diff old < 2 ^ 32.
Proof.
  intros Ho. unfold compute_speed.
  destruct ((0 <? prev) && (prev <=? total)); [apply wrap32_range | done].
Qed.

Lemma speeds_in_range_update s e :
  speeds_in_range (g_stats s) → speeds_in_range (g_stats (traffic_stats_update s e)).
Proof.
  intros (Hr & Ht & Hpr & Hpt).
  destruct (committed s e) eqn:Hc; [|by rewrite update_abandoned].
  unfold committed in Hc. apply andb_true_iff in Hc as [Hi Hl].
  rewrite (update_committed s e Hi Hl). unfold speeds_in_range. simpl.
  rewrite !raise_peak_max.
  pose proof (compute_speed_range (prev_rx_bytes s) (read_totals (traffic e)).1
    (elapsed_ms (get_time_ms (timer_us e)) (prev_update_time s)) _ Hr).
  pose proof (compute_speed_range (prev_tx_bytes s) (read_totals (traffic e)).2
    (elapsed_ms (get_time_ms (timer_us e)) (prev_update_time s)) _ Ht).
  lia.
Qed.

Lemma speeds_in_range_run calls : speeds_in_range (g_stats (run_calls boot_state calls)).
Proof.
  assert (Hz : speeds_in_range zero_stats) by (unfold speeds_in_range; simpl; lia).
  assert (Hgen : ∀ s, speeds_in_range (g_stats s) →
                      speeds_in_range (g_stats (run_calls s calls))).
  { induction calls as [|c calls IH]; intros s Hs; simpl; [done |].
    apply IH. destruct c as [m t cr sr| |e|l t|l]; simpl.
    - unfold traffic_stats_init. destruct (g_initialized s); [done |].
      destruct m; simpl; [|done].
      destruct (cr =? ESP_OK); simpl; [|done].
      by destruct (sr =? ESP_OK).
    - unfold traffic_stats_deinit. by destruct (g_initialized s).
    - by apply speeds_in_range_update.
    - unfold traffic_stats_reset. by destruct (g_initialized s), l.
    - unfold traffic_stats_reset_peak. destruct (g_initialized s), l; try done.
      destruct Hs as (? & ? & ? & ?). unfold speeds_in_range. simpl. lia. }
  by apply Hgen.
Qed.

(** X20.  On a snapshot taken right after a tick that got the lock, each
    dashboard gauge shows exactly [speed * 100 / peak] (0 while the peak is
    0), provided [speed * 100] fits 32 bits: the speed is then never above
    the scale. *)
Theorem dashboard_gauge_after_tick calls e :
  let s := run_calls boot_state calls in
  g_initialized s = true → lock_taken e = true →
  let st := snapshot (traffic_stats_update s e) in
  (rx_speed st * 100 < 2 ^ 32 →
   dashboard_rx_percent st
   = if 0 <? peak_rx_speed st then rx_speed st * 100 / peak_rx_speed st else 0) ∧
  (tx_speed st * 100 < 2 ^ 32 →
   dashboard_tx_percent st
   = if 0 <? peak_tx_speed st then tx_speed st * 100 / peak_tx_speed st else 0).
Proof.
  intros s Hi Hl. cbv zeta.
  assert (Hi' : g_initialized (traffic_stats_update s e) = true).
  { by rewrite (update_committed s e Hi Hl). }
  rewrite (snapshot_initialized _ Hi').
  pose proof (speeds_in_range_update s e (speeds_in_range_run calls))
    as (Hr & Ht & Hpr & Hpt).
  destruct (update_peaks s e) as [Hmr Hmt]. cbv zeta in Hmr, Hmt.
  assert (Hc : committed s e = true) by (unfold committed; by rewrite Hi, Hl).
  rewrite Hc in Hmr, Hmt.
  set (st := g_stats (traffic_stats_update s e)) in *.
  assert (Hgen : ∀ speed peak, 0 ≤ speed → speed ≤ peak → speed * 100 < 2 ^ 32 →
    gauge_percent speed (if 0 <? peak then peak else 1000000)
    = if 0 <? peak then speed * 100 / peak else 0).
  { intros speed peak H0 Hle H32. destruct (Z.ltb_spec 0 peak).
    - assert (Hq : speed * 100 / peak ≤ 100).
      { apply Z.div_le_upper_bound; lia. }
      rewrite gauge_percent_exact by lia.
      assert (0 ≤ speed * 100 / peak) by (apply Z.div_pos; lia). lia.
    - assert (speed = 0) as -> by lia. reflexivity. }
  split; intros H32; apply Hgen; lia.
Qed.

Lemma dashboard_gauge_after_tick_witness :
  let calls := [CallInit true 0 ESP_OK ESP_OK;
                CallUpdate (tick_at 1000 1000 500 []);
                CallUpdate (tick_at 2000 5000 900 [])] in
  let st := snapshot (traffic_stats_update (run_calls boot_state calls)
                                           (tick_at 3000 6000 1000 [])) in
  rx_speed st = 1000 ∧ peak_rx_speed st = 4000 ∧ dashboard_rx_percent st = 25.
Proof.
  intros calls st.
  destruct (dashboard_gauge_after_tick calls (tick_at 3000 6000 1000 [])
              eq_refl eq_refl) as [H _].
  split_and!; [reflexivity | reflexivity |].
  etransitivity; [apply H; vm_compute; reflexivity | reflexivity].
Defined.

(** * Text of the uptime *)

Lemma length_decimal_digits fuel : ∀ (k : nat) n,
  (1 ≤ k ≤ fuel)%nat → 0 ≤ n < 10 ^ Z.of_nat k →
  (1 ≤ length (decimal_digits fuel n) ≤ k)%nat.
Proof.
  induction fuel as [|fuel IH]; intros k n Hk Hn; [lia |].
  cbn [decimal_digits]. rewrite length_app. simpl.
  destruct (Z.ltb_spec n 10) as [Hlt|Hge]; simpl; [lia |].
  destruct k as [|[|k]]; [lia | |].
  { assert (Hp : 10 ^ Z.of_nat 1 = 10) by reflexivity. rewrite Hp in Hn. lia. }
  assert (Hdiv : 0 ≤ n / 10 < 10 ^ Z.of_nat (S k)).
  { split; [apply Z.div_pos; lia |].
    apply Z.div_lt_upper_bound; [lia |].
    replace (Z.of_nat (S (S k))) with (Z.succ (Z.of_nat (S k))) in Hn by lia.
    rewrite Z.pow_succ_r in Hn by lia. lia. }
  specialize (IH (S k) (n / 10) ltac:(lia) Hdiv). lia.
Qed.

Lemma length_fmt_02lu n : 0 ≤ n < 100 → length (fmt_02lu n) = 2%nat.
Proof.
  intros Hn. unfold fmt_02lu, fmt_lu.
  assert (Hp : 10 ^ Z.of_nat 2 = 100) by reflexivity.
  pose proof (length_decimal_digits 10 2 n ltac:(lia) ltac:(rewrite Hp; lia)) as Hl.
  cbv zeta. generalize dependent (decimal_digits 10 n). intros l Hl.
  destruct (Nat.ltb_spec (length l) 2); [rewrite length_cons |]; lia.
Qed.

Lemma uptime_fields_spec seconds :
  0 ≤ seconds →
  let '(days, hours, mins, secs) := uptime_fields seconds in
  seconds = days * 86400 + hours * 3600 + mins * 60 + secs ∧
  0 ≤ days ∧ 0 ≤ hours < 24 ∧ 0 ≤ mins < 60 ∧ 0 ≤ secs < 60.
Proof.
  intros Hs. unfold uptime_fields.
  pose proof (Z.div_mod seconds 86400 ltac:(lia)) as H1.
  pose proof (Z.mod_pos_bound seconds 86400 ltac:(lia)) as B1.
  pose proof (Z.div_mod (seconds mod 86400) 3600 ltac:(lia)) as H2.
  pose proof (Z.mod_pos_bound (seconds mod 86400) 3600 ltac:(lia)) as B2.
  pose proof (Z.div_mod seconds 3600 ltac:(lia)) as H3.
  pose proof (Z.mod_pos_bound seconds 3600 ltac:(lia)) as B3.
  pose proof (Z.div_mod (seconds mod 3600) 60 ltac:(lia)) as H4.
  pose proof (Z.mod_pos_bound (seconds mod 3600) 60 ltac:(lia)) as B4.
  pose proof (Z.div_mod seconds 60 ltac:(lia)) as H5.
  pose proof (Z.mod_pos_bound seconds 60 ltac:(lia)) as B5.
  assert (Hm1 : (seconds mod 86400) mod 3600 = seconds mod 3600).
  { apply (Z.mod_unique seconds 3600
             (seconds / 86400 * 24 + seconds mod 86400 / 3600)); [left; lia | lia]. }
  assert (Hm2 : (seconds mod 3600) mod 60 = seconds mod 60).
  { apply (Z.mod_unique seconds 60
             (seconds / 3600 * 60 + seconds mod 3600 / 60)); [left; lia | lia]. }
  assert (0 ≤ seconds / 86400) by (apply Z.div_pos; lia).
  assert (0 ≤ seconds mod 86400 / 3600 < 24).
  { split; [apply Z.div_pos; lia | apply Z.div_lt_upper_bound; lia]. }
  assert (0 ≤ seconds mod 3600 / 60 < 60).
  { split; [apply Z.div_pos; lia | apply Z.div_lt_upper_bound; lia]. }
  split_and!; try lia.
Qed.

Lemma length_uptime_text seconds :
  0 ≤ seconds < 2 ^ 32 →
  length (uptime_text seconds)
  = (if 0 <? seconds / 86400
     then (length (fmt_lu (seconds / 86400)) + 10)%nat else 8%nat) ∧
  (length (uptime_text seconds) ≤ 15)%nat.
Proof.
  intros Hs. pose proof (uptime_fields_spec seconds ltac:(lia)) as Hf.
  unfold uptime_text. unfold uptime_fields in *.
  destruct Hf as (Hsum & Hd & Hh & Hm & Hsec).
  assert (Hlen : length (fmt_02lu (seconds mod 86400 / 3600) ++ [":"%char]
                   ++ fmt_02lu (seconds mod 3600 / 60) ++ [":"%char]
                   ++ fmt_02lu (seconds mod 60)) = 8%nat).
  { rewrite !length_app, !length_fmt_02lu by lia. reflexivity. }
  destruct (Z.ltb_spec 0 (seconds / 86400)) as [Hpos|Hzero].
  - rewrite !length_app. rewrite !length_app in Hlen. rewrite Hlen.
    assert (Hp : 10 ^ Z.of_nat 5 = 100000) by reflexivity.
    assert (Hdays : seconds / 86400 < 100000) by (apply Z.div_lt_upper_bound; lia).
    assert (Hrange : 0 ≤ seconds / 86400 < 10 ^ Z.of_nat 5) by (rewrite Hp; lia).
    pose proof (length_decimal_digits 10 5 (seconds / 86400) ltac:(lia) Hrange) as Hl.
    unfold fmt_lu. cbn [length]. lia.
  - rewrite Hlen. lia.
Qed.

(** X21.  [format_uptime] splits the seconds into days, hours below 24,
    minutes below 60 and seconds below 60 that add up to its argument, and
    writes ["HH:MM:SS"], preceded by the days and ["d "] when there is at
    least one day.  For a 32-bit argument the text has 8 characters without
    days and at most 15 with them, so a buffer of 16 bytes or more (the
    callers pass 32) is never too small; with [buffer_size] 0 the buffer is
    not written. *)
Theorem format_uptime_text seconds buffer buffer_size :
  0 ≤ seconds < 2 ^ 32 →
  (16 ≤ buffer_size →
   ∃ days hours mins secs,
     seconds = days * 86400 + hours * 3600 + mins * 60 + secs ∧
     0 ≤ days ∧ 0 ≤ hours < 24 ∧ 0 ≤ mins < 60 ∧ 0 ≤ secs < 60 ∧
     format_uptime seconds buffer buffer_size
     = (if 0 <? days then fmt_lu days ++ ["d"%char; " "%char] else [])
       ++ fmt_02lu hours ++ [":"%char] ++ fmt_02lu mins ++ [":"%char] ++ fmt_02lu secs ∧
     length (format_uptime seconds buffer buffer_size)
     = (if 0 <? days then (length (fmt_lu days) + 10)%nat else 8%nat) ∧
     (length (format_uptime seconds buffer buffer_size) ≤ 15)%nat) ∧
  (buffer_size = 0 → format_uptime seconds buffer buffer_size = buffer).
Proof.
  intros Hs. split.
  - intros Hsize.
    pose proof (uptime_fields_spec seconds ltac:(lia)) as Hf.
    destruct (length_uptime_text seconds Hs) as [Hlen Hmax].
    assert (Hfull : format_uptime seconds buffer buffer_size = uptime_text seconds).
    { unfold format_uptime, c_snprintf.
      destruct (Z.leb_spec buffer_size 0); [lia |]. apply take_ge. lia. }
    unfold uptime_fields in Hf. destruct Hf as (Hsum & Hd & Hh & Hm & Hsec).
    exists (seconds / 86400), (seconds mod 86400 / 3600),
           (seconds mod 3600 / 60), (seconds mod 60).
    rewrite Hfull. split_and!; try lia; try done.
    unfold uptime_text, uptime_fields.
    destruct (0 <? seconds / 86400); [by rewrite <- app_assoc | done].
  - intros ->. reflexivity.
Qed.

(** One day, two hours, three minutes and four seconds. *)
Lemma format_uptime_text_witness :
  format_uptime 93784 [] 32 = list_ascii_of_string "1d 02:03:04" ∧
  format_uptime 3723 [] 32 = list_ascii_of_string "01:02:03" ∧
  format_uptime 93784 [] 6 = list_ascii_of_string "1d 02".
Proof.
  destruct (format_uptime_text 93784 [] 32 ltac:(lia)) as [H _].
  destruct (H ltac:(lia)) as (d & h & m & sec & Hsum & Hd & Hh & Hm & Hs & Htxt & _).
  assert (d = 1 ∧ h = 2 ∧ m = 3 ∧ sec = 4) as (-> & -> & -> & ->) by lia.
  split_and!; [rewrite Htxt |..]; reflexivity.
Defined.

(** * Rectangles on the panel *)

Lemma sint16_id z : int16 z → sint16 z = z.
Proof.
  unfold int16, sint16. intros H. rewrite Z.mod_small by lia. lia.
Qed.

Lemma sint16_range z : int16 (sint16 z).
Proof.
  unfold int16, sint16. pose proof (Z.mod_pos_bound (z + 32768) 65536 ltac:(lia)). lia.
Qed.

(** A value one 16-bit span above the range comes back 65536 lower. *)
Lemma sint16_cases z :
  -32768 ≤ z ≤ 98303 → sint16 z = z ∨ (32767 < z ∧ sint16 z = z - 65536).
Proof.
  intros Hz. destruct (Z.le_gt_cases z 32767) as [Hle|Hgt].
  - left. apply sint16_id. unfold int16. lia.
  - right. split; [lia |]. unfold sint16.
    replace (z + 32768) with ((z - 65536 + 32768) + 1 * 65536) by lia.
    rewrite Z.mod_add by lia. rewrite Z.mod_small by lia. lia.
Qed.

(** The rectangle [tft_fill_rect] ends up drawing. *)
Lemma fill_rect_draws x y w h color :
  ∃ cx cy cw ch,
    tft_fill_rect true x y w h color
    = (if (cw <=? 0) || (ch <=? 0) then []
       else (λ row, PanelDraw cx row (cx + cw) (row + 1) color) <$> seqZ cy ch) ∧
    cx = Z.max x 0 ∧ cy = Z.max y 0 ∧
    cw = (let w1 := if x <? 0 then sint16 (w + x) else w in
          if TFT_WIDTH <? cx + w1 then sint16 (TFT_WIDTH - cx) else w1) ∧
    ch = (let h1 := if y <? 0 then sint16 (h + y) else h in
          if TFT_HEIGHT <? cy + h1 then sint16 (TFT_HEIGHT - cy) else h1).
Proof.
  unfold tft_fill_rect. simpl.
  destruct (Z.ltb_spec x 0), (Z.ltb_spec y 0); cbv zeta;
    eexists _, _, _, _; (split; [reflexivity |]); split_and!; try lia;
    rewrite ?Z.max_l, ?Z.max_r by lia; reflexivity.
Qed.

Lemma fill_rect_safe_rows x y w h color d :
  int16 x → int16 y → int16 w → int16 h →
  d ∈ tft_fill_rect true x y w h color →
  0 ≤ x_start d ∧ x_start d < x_end d ∧ x_end d ≤ TFT_WIDTH ∧
  0 ≤ y_start d ∧ y_end d = y_start d + 1 ∧ y_end d ≤ TFT_HEIGHT ∧ fill d = color.
Proof.
  intros Hx Hy Hw Hh Hd.
  destruct (fill_rect_draws x y w h color) as (cx & cy & cw & ch & Heq & Hcx & Hcy & Hcw & Hch).
  rewrite Heq in Hd. clear Heq.
  destruct (Z.leb_spec cw 0) as [|Hwpos]; simpl in Hd; [by apply elem_of_nil in Hd |].
  destruct (Z.leb_spec ch 0) as [|Hhpos]; simpl in Hd; [by apply elem_of_nil in Hd |].
  apply list_elem_of_fmap in Hd as (row & -> & Hrow). apply elem_of_seqZ in Hrow. simpl.
  unfold TFT_WIDTH, TFT_HEIGHT, int16 in *. cbv zeta in Hcw, Hch.
  assert (Hwb : cx + cw ≤ 240).
  { subst cw. destruct (Z.ltb_spec 240 (cx + (if x <? 0 then sint16 (w + x) else w))).
    - rewrite sint16_id by (unfold int16; lia). lia.
    - lia. }
  assert (Hhb : cy + ch ≤ 320).
  { subst ch. destruct (Z.ltb_spec 320 (cy + (if y <? 0 then sint16 (h + y) else h))).
    - rewrite sint16_id by (unfold int16; lia). lia.
    - lia. }
  split_and!; try lia; try done.
Qed.

(** X22.  Whatever its [int16_t] arguments, every panel transfer that
    [tft_fill_rect] issues lies inside the 240 x 320 panel, is one row high,
    carries the requested colour and is at most [TFT_WIDTH] pixels wide, the
    size of the line buffer; nothing is drawn on a display that is not
    ready. *)
Theorem fill_rect_stays_on_panel ready x y w h color :
  int16 x → int16 y → int16 w → int16 h →
  (ready = false → tft_fill_rect ready x y w h color = []) ∧
  ∀ d, d ∈ tft_fill_rect ready x y w h color →
    0 ≤ x_start d ∧ x_start d < x_end d ∧ x_end d ≤ TFT_WIDTH ∧
    x_end d - x_start d ≤ TFT_WIDTH ∧
    0 ≤ y_start d ∧ y_end d = y_start d + 1 ∧ y_end d ≤ TFT_HEIGHT ∧
    fill d = color.
Proof.
  intros Hx Hy Hw Hh. split; [by intros -> |].
  intros d Hd. destruct ready; [|by apply elem_of_nil in Hd].
  destruct (fill_rect_safe_rows x y w h color d Hx Hy Hw Hh Hd)
    as (H1 & H2 & H3 & H4 & H5 & H6 & H7).
  split_and!; try done. lia.
Qed.

(** A rectangle hanging over the left and bottom edges. *)
Lemma fill_rect_stays_on_panel_witness :
  tft_fill_rect true (-5) 318 20 10 7
  = [PanelDraw 0 318 15 319 7; PanelDraw 0 319 15 320 7] ∧
  ∀ d, d ∈ tft_fill_rect true (-5) 318 20 10 7 → x_end d ≤ TFT_WIDTH ∧ y_end d ≤ TFT_HEIGHT.
Proof.
  split; [reflexivity |]. intros d Hd.
  destruct (fill_rect_stays_on_panel true (-5) 318 20 10 7
              ltac:(unfold int16; lia) ltac:(unfold int16; lia)
              ltac:(unfold int16; lia) ltac:(unfold int16; lia))
    as [_ H].
  destruct (H d Hd) as (_ & _ & Hxe & _ & _ & _ & Hye & _). done.
Defined.

(** The pixels painted are those of the rectangle that are on the panel. *)
Lemma fill_rect_pixels x y w h color px py :
  int16 x → int16 y → int16 w → int16 h →
  -32768 ≤ w + Z.min x 0 → -32768 ≤ h + Z.min y 0 →
  (∃ d, d ∈ tft_fill_rect true x y w h color ∧ paints d px py) ↔
  (x ≤ px < x + w ∧ y ≤ py < y + h ∧ 0 ≤ px < TFT_WIDTH ∧ 0 ≤ py < TFT_HEIGHT).
Proof.
  intros Hx Hy Hw Hh Hwx Hhy.
  destruct (fill_rect_draws x y w h color) as (cx & cy & cw & ch & Heq & Hcx & Hcy & Hcw & Hch).
  rewrite Heq. clear Heq. cbv zeta in Hcw, Hch.
  unfold TFT_WIDTH, TFT_HEIGHT, int16 in *.
  assert (Hw1 : (if x <? 0 then sint16 (w + x) else w) = w + Z.min x 0).
  { destruct (Z.ltb_spec x 0); [rewrite sint16_id by (unfold int16; lia) |]; lia. }
  assert (Hh1 : (if y <? 0 then sint16 (h + y) else h) = h + Z.min y 0).
  { destruct (Z.ltb_spec y 0); [rewrite sint16_id by (unfold int16; lia) |]; lia. }
  rewrite Hw1 in Hcw. rewrite Hh1 in Hch.
  assert (Hcw' : cw = Z.min (w + Z.min x 0) (240 - cx)).
  { subst cw. destruct (Z.ltb_spec 240 (cx + (w + Z.min x 0)));
      [rewrite sint16_id by (unfold int16; lia) |]; lia. }
  assert (Hch' : ch = Z.min (h + Z.min y 0) (320 - cy)).
  { subst ch. destruct (Z.ltb_spec 320 (cy + (h + Z.min y 0)));
      [rewrite sint16_id by (unfold int16; lia) |]; lia. }
  clear Hcw Hch. split.
  - intros (d & Hd & Hp).
    destruct (Z.leb_spec cw 0); simpl in Hd; [by apply elem_of_nil in Hd |].
    destruct (Z.leb_spec ch 0); simpl in Hd; [by apply elem_of_nil in Hd |].
    apply list_elem_of_fmap in Hd as (row & -> & Hrow). apply elem_of_seqZ in Hrow.
    unfold paints in Hp. simpl in Hp. lia.
  - intros (Hpx & Hpy & Hsx & Hsy).
    destruct (Z.leb_spec cw 0); [lia |]. destruct (Z.leb_spec ch 0); [lia |]. simpl.
    exists (PanelDraw cx py (cx + cw) (py + 1) color). split.
    + apply list_elem_of_fmap. exists py. split; [done |]. apply elem_of_seqZ. lia.
    + unfold paints. simpl. lia.
Qed.

(** X23.  [tft_fill_rect] paints exactly the pixels of the requested
    rectangle that lie on the panel, provided the clamping of a negative
    origin does not wrap the 16-bit width or height (always so when they are
    not negative). *)
Theorem fill_rect_paints_clipped_rectangle x y w h color px py :
  int16 x → int16 y → int16 w → int16 h →
  -32768 ≤ w + Z.min x 0 → -32768 ≤ h + Z.min y 0 →
  (∃ d, d ∈ tft_fill_rect true x y w h color ∧ paints d px py) ↔
  (x ≤ px < x + w ∧ y ≤ py < y + h ∧ 0 ≤ px < TFT_WIDTH ∧ 0 ≤ py < TFT_HEIGHT).
Proof. apply fill_rect_pixels. Qed.

Lemma fill_rect_paints_clipped_rectangle_witness :
  (∃ d, d ∈ tft_fill_rect true 230 (-3) 30 10 9 ∧ paints d 239 6) ∧
  ¬ (∃ d, d ∈ tft_fill_rect true 230 (-3) 30 10 9 ∧ paints d 239 7).
Proof.
  split.
  - apply (fill_rect_paints_clipped_rectangle 230 (-3) 30 10 9 239 6);
      unfold int16, TFT_WIDTH, TFT_HEIGHT; lia.
  - intros H.
    apply (fill_rect_paints_clipped_rectangle 230 (-3) 30 10 9 239 7) in H;
      unfold int16 in *; lia.
Defined.

Lemma painted_app (l1 l2 : list panel_draw) px py :
  (∃ d, d ∈ l1 ++ l2 ∧ paints d px py) ↔
  (∃ d, d ∈ l1 ∧ paints d px py) ∨ (∃ d, d ∈ l2 ∧ paints d px py).
Proof.
  split.
  - intros (d & [Hd|Hd]%elem_of_app & Hp); [left | right]; eauto.
  - intros [(d & Hd & Hp)|(d & Hd & Hp)]; exists d; (split; [|done]);
      apply elem_of_app; auto.
Qed.

(** X24.  [tft_draw_rect] with a width and height of at least 1 paints
    exactly the border of the rectangle, cut to the panel: the pixels of the
    rectangle that are on the panel and lie in its first or last row or
    column. *)
Theorem draw_rect_paints_border x y w h color px py :
  int16 x → int16 y → int16 w → int16 h → 1 ≤ w → 1 ≤ h →
  (∃ d, d ∈ tft_draw_rect true x y w h color ∧ paints d px py) ↔
  (x ≤ px < x + w ∧ y ≤ py < y + h ∧ 0 ≤ px < TFT_WIDTH ∧ 0 ≤ py < TFT_HEIGHT ∧
   (px = x ∨ px = x + w - 1 ∨ py = y ∨ py = y + h - 1)).
Proof.
  intros Hx Hy Hw Hh Hw1 Hh1.
  unfold tft_draw_rect, tft_draw_hline, tft_draw_vline.
  rewrite !painted_app.
  assert (H1 : int16 1) by (unfold int16; lia).
  pose proof (sint16_range (x + w - 1)) as Hxe.
  pose proof (sint16_range (y + h - 1)) as Hye.
  assert (Hxc : -32768 ≤ x + w - 1 ≤ 98303) by (unfold int16 in *; lia).
  assert (Hyc : -32768 ≤ y + h - 1 ≤ 98303) by (unfold int16 in *; lia).
  apply sint16_cases in Hxc, Hyc.
  revert Hxe Hye Hxc Hyc.
  generalize (sint16 (x + w - 1)) (sint16 (y + h - 1)). intros xe ye Hxe Hye Hxc Hyc.
  rewrite (fill_rect_pixels x y w 1), (fill_rect_pixels x ye w 1),
    (fill_rect_pixels x y 1 h), (fill_rect_pixels xe y 1 h);
    try done; unfold int16, TFT_WIDTH, TFT_HEIGHT in *; lia.
Qed.

(** The second rectangle reaches past the 16-bit range: its last column,
    32966, comes back as -32570 and is not drawn; the rest of the border
    still is. *)
Lemma draw_rect_paints_border_witness :
  (∃ d, d ∈ tft_draw_rect true 10 20 30 40 5 ∧ paints d 39 33) ∧
  ¬ (∃ d, d ∈ tft_draw_rect true 10 20 30 40 5 ∧ paints d 38 33) ∧
  (∃ d, d ∈ tft_draw_rect true 200 10 32767 5 9 ∧ paints d 239 14) ∧
  ¬ (∃ d, d ∈ tft_draw_rect true 200 10 32767 5 9 ∧ paints d 239 12).
Proof.
  split_and!.
  - apply (draw_rect_paints_border 10 20 30 40 5 39 33);
      unfold int16, TFT_WIDTH, TFT_HEIGHT; lia.
  - intros H.
    apply (draw_rect_paints_border 10 20 30 40 5 38 33) in H;
      unfold int16 in *; lia.
  - apply (draw_rect_paints_border 200 10 32767 5 9 239 14);
      unfold int16, TFT_WIDTH, TFT_HEIGHT; lia.
  - intros H.
    apply (draw_rect_paints_border 200 10 32767 5 9 239 12) in H;
      unfold int16 in *; lia.
Defined.

(** * Circles *)

Lemma circle_next_spec x y err :
  -1 ≤ y → y ≤ x → x ≤ 32766 →
  ∃ x' err', circle_next x y err = (x', y + 1, err') ∧ (x' = x ∨ x' = x - 1).
Proof.
  intros Hy Hxy Hx. unfold circle_next.
  rewrite (sint16_id (y + 1)) by (unfold int16; lia).
  destruct (err <? 0); [eauto |].
  rewrite (sint16_id (x - 1)) by (unfold int16; lia). eauto.
Qed.

(** The loop ends, and its transfers are those of the bodies at the visited
    steps. *)
Lemma circle_loop_steps body fuel : ∀ x y err,
  0 ≤ y → x ≤ 32766 → (Z.to_nat (x - y + 1) < fuel)%nat →
  circle_loop fuel body x y err
  = Some (circle_steps fuel x y err ≫= (λ p, body p.1 p.2)).
Proof.
  induction fuel as [|fuel IH]; intros x y err Hy Hx Hfuel; [lia |].
  cbn [circle_loop circle_steps].
  destruct (Z.ltb_spec x y) as [Hlt|Hge]; [done |].
  destruct (circle_next_spec x y err) as (x' & err' & -> & Hx'); [lia | lia | lia |].
  rewrite IH by (destruct Hx'; subst; lia). simpl. done.
Qed.

Lemma circle_steps_bounds fuel : ∀ x y err a b,
  0 ≤ y → x ≤ 32766 →
  (a, b) ∈ circle_steps fuel x y err → y ≤ b ∧ b ≤ a ∧ a ≤ x.
Proof.
  induction fuel as [|fuel IH]; intros x y err a b Hy Hx Hin; simpl in Hin.
  { by apply elem_of_nil in Hin. }
  destruct (Z.ltb_spec x y) as [Hlt|Hge]; [by apply elem_of_nil in Hin |].
  destruct (circle_next_spec x y err) as (x' & err' & Hnext & Hx'); [lia | lia | lia |].
  rewrite Hnext in Hin. apply elem_of_cons in Hin as [[= -> ->]|Hin]; [lia |].
  apply IH in Hin; [|lia | destruct Hx'; subst; lia].
  destruct Hx'; subst; lia.
Qed.

Lemma circle_steps_first r err :
  0 < r → (r, 0) ∈ circle_steps (circle_fuel r) r 0 err.
Proof.
  intros Hr. unfold circle_fuel.
  replace (Z.to_nat r + 2)%nat with (S (Z.to_nat r + 1)) by lia.
  cbn [circle_steps]. destruct (Z.ltb_spec r 0); [lia |].
  destruct (circle_next r 0 err) as [[x' y'] err']. apply list_elem_of_here.
Qed.

Lemma painted_bind {A} (l : list A) (f : A → list panel_draw) px py :
  painted (l ≫= f) px py ↔ ∃ a, a ∈ l ∧ painted (f a) px py.
Proof.
  unfold painted. split.
  - intros (d & Hd & Hp). apply list_elem_of_bind in Hd as (a & Hd & Ha). eauto.
  - intros (a & Ha & d & Hd & Hp). exists d. split; [|done].
    apply list_elem_of_bind. eauto.
Qed.

Lemma painted_app' (l1 l2 : list panel_draw) px py :
  painted (l1 ++ l2) px py ↔ painted l1 px py ∨ painted l2 px py.
Proof. apply painted_app. Qed.

Lemma hline_pixels x y w color px py :
  int16 x → int16 y → 1 ≤ w ≤ 32767 →
  painted (tft_draw_hline true x y w color) px py ↔
  (x ≤ px < x + w ∧ py = y ∧ on_panel px py).
Proof.
  intros Hx Hy Hw. unfold painted, tft_draw_hline.
  rewrite fill_rect_pixels; unfold int16, on_panel in *; try lia.
Qed.

Lemma pixel_pixels x y color px py :
  painted (draw_pixel x y color) px py ↔ (px = x ∧ py = y ∧ on_panel px py).
Proof.
  unfold painted, draw_pixel, on_panel, TFT_WIDTH, TFT_HEIGHT.
  destruct (Z.ltb_spec x 0), (Z.leb_spec 240 x), (Z.ltb_spec y 0), (Z.leb_spec 320 y);
    simpl; split;
    try (intros (d & Hd & _); by apply elem_of_nil in Hd);
    try (intros (-> & -> & ?); lia).
  - intros (d & Hd & Hp). apply list_elem_of_singleton in Hd as ->.
    unfold paints in Hp. simpl in Hp. lia.
  - intros (-> & -> & ?). eexists. split; [apply list_elem_of_here |].
    unfold paints. simpl. lia.
Qed.

(** One iteration of the filled circle: two rows of half-width [x] at
    distance [y] from the centre row and two rows of half-width [y] at
    distance [x]. *)
Lemma fill_circle_body_pixels x0 y0 r color x y px py :
  int16 (x0 - r) → int16 (x0 + r) → int16 (y0 - r) → int16 (y0 + r) →
  r ≤ 16383 → 0 ≤ y → y ≤ x → x ≤ r →
  painted (fill_circle_body true x0 y0 color x y) px py ↔
  (on_panel px py ∧
   ((Z.abs (px - x0) ≤ x ∧ Z.abs (py - y0) = y) ∨
    (Z.abs (px - x0) ≤ y ∧ Z.abs (py - y0) = x))).
Proof.
  intros Hxl Hxr Hyl Hyr Hr Hy Hxy Hx. unfold fill_circle_body, int16 in *.
  rewrite !painted_app'.
  rewrite !sint16_id by (unfold int16; lia).
  rewrite !hline_pixels by (unfold int16; lia).
  unfold on_panel. lia.
Qed.

Ltac pick_disjunct :=
  first [ solve [split_and!; first [lia | done]]
        | left; solve [split_and!; first [lia | done]]
        | right; pick_disjunct ].

Lemma draw_circle_body_pixels x0 y0 r color x y px py :
  int16 (x0 - r) → int16 (x0 + r) → int16 (y0 - r) → int16 (y0 + r) →
  0 ≤ y → y ≤ x → x ≤ r →
  painted (draw_circle_body x0 y0 color x y) px py ↔
  (on_panel px py ∧
   ((Z.abs (px - x0) = x ∧ Z.abs (py - y0) = y) ∨
    (Z.abs (px - x0) = y ∧ Z.abs (py - y0) = x))).
Proof.
  intros Hxl Hxr Hyl Hyr Hy Hxy Hx. unfold draw_circle_body, int16 in *.
  rewrite !painted_app'.
  rewrite !sint16_id by (unfold int16; lia).
  rewrite !pixel_pixels.
  split.
  - intros H.
    repeat (destruct H as [H|H]; [destruct H as (-> & -> & Hon); (split; [done | lia]) |]).
    destruct H as (-> & -> & Hon). split; [done | lia].
  - intros (Hon & H).
    destruct (Z.le_ge_cases 0 (px - x0)), (Z.le_ge_cases 0 (py - y0)),
      H as [[Ha Hb]|[Ha Hb]]; pick_disjunct.
Qed.

Section circle.
Variables x0 y0 r color : Z.
Hypothesis Hr : 0 < r ≤ 16383.
Hypothesis Hxl : int16 (x0 - r).
Hypothesis Hxr : int16 (x0 + r).
Hypothesis Hyl : int16 (y0 - r).
Hypothesis Hyr : int16 (y0 + r).

Lemma steps_in_octant a b : (a, b) ∈ circle_octant r → 0 ≤ b ∧ b ≤ a ∧ a ≤ r.
Proof. intros H. unfold circle_octant in H. apply circle_steps_bounds in H; lia. Qed.

Lemma fill_circle_pixels :
  ∃ draws, tft_fill_circle true x0 y0 r color = Some draws ∧
    ∀ px py, painted draws px py ↔
      (on_panel px py ∧
       ∃ a b, (a, b) ∈ circle_octant r ∧
         ((Z.abs (px - x0) ≤ a ∧ Z.abs (py - y0) = b) ∨
          (Z.abs (px - x0) ≤ b ∧ Z.abs (py - y0) = a))).
Proof.
  unfold tft_fill_circle. destruct (Z.leb_spec r 0); [lia |].
  rewrite circle_loop_steps by (unfold circle_fuel; lia).
  eexists. split; [reflexivity |]. intros px py.
  rewrite painted_bind. fold (circle_octant r). split.
  - intros ([a b] & Hin & Hp). simpl in Hp.
    destruct (steps_in_octant a b Hin) as (? & ? & ?).
    apply (fill_circle_body_pixels x0 y0 r) in Hp; try done; try lia.
    destruct Hp as [Hon Hp]. split; [done |]. by exists a, b.
  - intros (Hon & a & b & Hin & Hp). exists (a, b). split; [done |]. simpl.
    destruct (steps_in_octant a b Hin) as (? & ? & ?).
    apply (fill_circle_body_pixels x0 y0 r); try done; lia.
Qed.

Lemma draw_circle_pixels :
  ∃ draws, tft_draw_circle x0 y0 r color = Some draws ∧
    ∀ px py, painted draws px py ↔
      (on_panel px py ∧
       ∃ a b, (a, b) ∈ circle_octant r ∧
         ((Z.abs (px - x0) = a ∧ Z.abs (py - y0) = b) ∨
          (Z.abs (px - x0) = b ∧ Z.abs (py - y0) = a))).
Proof.
  unfold tft_draw_circle. destruct (Z.leb_spec r 0); [lia |].
  rewrite circle_loop_steps by (unfold circle_fuel; lia).
  eexists. split; [reflexivity |]. intros px py.
  rewrite painted_bind. fold (circle_octant r). split.
  - intros ([a b] & Hin & Hp). simpl in Hp.
    destruct (steps_in_octant a b Hin) as (? & ? & ?).
    apply (draw_circle_body_pixels x0 y0 r) in Hp; try done; try lia.
    destruct Hp as [Hon Hp]. split; [done |]. by exists a, b.
  - intros (Hon & a & b & Hin & Hp). exists (a, b). split; [done |]. simpl.
    destruct (steps_in_octant a b Hin) as (? & ? & ?).
    apply (draw_circle_body_pixels x0 y0 r); try done; lia.
Qed.

(** X25.  [tft_fill_circle] with a radius from 1 to 16383 whose bounding
    square has 16-bit coordinates returns after at most [r + 1]
    iterations.  Every pixel it paints is on the panel and within [r] of
    the centre in both directions; the part of the centre row within [r]
    of the centre that is on the panel is painted; and the painted set is
    symmetric about the centre column and the centre row, as far as the
    mirror pixels are on the panel. *)
Theorem fill_circle_shape :
  ∃ draws, tft_fill_circle true x0 y0 r color = Some draws ∧
    (∀ px py, painted draws px py →
       on_panel px py ∧ Z.abs (px - x0) ≤ r ∧ Z.abs (py - y0) ≤ r) ∧
    (∀ px, on_panel px y0 → Z.abs (px - x0) ≤ r → painted draws px y0) ∧
    (∀ px py, painted draws px py →
       (on_panel (2 * x0 - px) py → painted draws (2 * x0 - px) py) ∧
       (on_panel px (2 * y0 - py) → painted draws px (2 * y0 - py))).
Proof.
  destruct fill_circle_pixels as (draws & Heq & Hpix).
  exists draws. split; [done |]. split_and!.
  - intros px py (Hon & a & b & Hin & Hp)%Hpix.
    destruct (steps_in_octant a b Hin) as (? & ? & ?).
    split; [done |]. lia.
  - intros px Hon Hpx. apply Hpix. split; [done |].
    exists r, 0. split; [unfold circle_octant; apply circle_steps_first; lia |]. left. lia.
  - intros px py (Hon & a & b & Hin & Hp)%Hpix. split; intros Hon'.
    + apply Hpix. split; [done |]. exists a, b. split; [done |]. lia.
    + apply Hpix. split; [done |]. exists a, b. split; [done |]. lia.
Qed.

(** X26.  [tft_draw_circle] under the same conditions returns, and every
    pixel of the outline it paints is also painted by [tft_fill_circle]
    with the same arguments.  The outline contains the four points at
    distance [r] on the centre row and column when they are on the panel,
    and it is symmetric under exchanging the two offsets from the
    centre. *)
Theorem draw_circle_inside_fill :
  ∃ outline disc,
    tft_draw_circle x0 y0 r color = Some outline ∧
    tft_fill_circle true x0 y0 r color = Some disc ∧
    (∀ px py, painted outline px py → painted disc px py) ∧
    (on_panel (x0 + r) y0 → painted outline (x0 + r) y0) ∧
    (on_panel (x0 - r) y0 → painted outline (x0 - r) y0) ∧
    (on_panel x0 (y0 + r) → painted outline x0 (y0 + r)) ∧
    (on_panel x0 (y0 - r) → painted outline x0 (y0 - r)) ∧
    (∀ dx dy, painted outline (x0 + dx) (y0 + dy) →
       on_panel (x0 + dy) (y0 + dx) → painted outline (x0 + dy) (y0 + dx)).
Proof.
  destruct draw_circle_pixels as (outline & Ho & Hopix).
  destruct fill_circle_pixels as (disc & Hd & Hdpix).
  exists outline, disc. split; [done |]. split; [done |].
  assert (Hfirst : (r, 0) ∈ circle_octant r) by (unfold circle_octant; apply circle_steps_first; lia).
  split_and!.
  - intros px py (Hon & a & b & Hin & Hp)%Hopix.
    apply Hdpix. split; [done |]. exists a, b. split; [done |]. lia.
  - intros Hon. apply Hopix. split; [done |]. exists r, 0. split; [done |]. lia.
  - intros Hon. apply Hopix. split; [done |]. exists r, 0. split; [done |]. lia.
  - intros Hon. apply Hopix. split; [done |]. exists r, 0. split; [done |]. lia.
  - intros Hon. apply Hopix. split; [done |]. exists r, 0. split; [done |]. lia.
  - intros dx dy (Hon & a & b & Hin & Hp)%Hopix Hon'.
    apply Hopix. split; [done |]. exists a, b. split; [done |].
    replace (x0 + dx - x0) with dx in Hp by lia.
    replace (y0 + dy - y0) with dy in Hp by lia.
    replace (x0 + dy - x0) with dy by lia.
    replace (y0 + dx - y0) with dx by lia. lia.
Qed.
End circle.

(** The dot of the current screen in the navigation bar: radius 5 at
    (80, 300). *)
Lemma fill_circle_shape_witness :
  ∃ draws, tft_fill_circle true 80 300 5 61 = Some draws ∧
           painted draws 75 300 ∧ painted draws 85 300 ∧
           ∀ px py, painted draws px py → Z.abs (px - 80) ≤ 5 ∧ Z.abs (py - 300) ≤ 5.
Proof.
  destruct (fill_circle_shape 80 300 5 61) as (draws & Heq & Hbox & Hrow & _);
    try (unfold int16; lia).
  exists draws. split; [exact Heq |]. split_and!.
  - apply Hrow; unfold on_panel, TFT_WIDTH, TFT_HEIGHT; lia.
  - apply Hrow; unfold on_panel, TFT_WIDTH, TFT_HEIGHT; lia.
  - intros px py Hp. by destruct (Hbox px py Hp) as (_ & ? & ?).
Defined.

Lemma draw_circle_inside_fill_witness :
  ∃ outline disc,
    tft_draw_circle 80 300 5 61 = Some outline ∧
    tft_fill_circle true 80 300 5 61 = Some disc ∧
    painted outline 80 305 ∧ painted disc 80 305.
Proof.
  destruct (draw_circle_inside_fill 80 300 5 61)
    as (outline & disc & Ho & Hd & Hin & _ & _ & Htop & _);
    try (unfold int16; lia).
  exists outline, disc. split; [exact Ho |]. split; [exact Hd |].
  assert (Hp : painted outline 80 305).
  { apply Htop. unfold on_panel, TFT_WIDTH, TFT_HEIGHT. lia. }
  split; [exact Hp | by apply Hin].
Defined.
